(** * pedigreeMapper: a shallow embedding of [pedigree.py]

    The script has four functions of interest: [parse_ped_file] turns the
    text of an upload into a dictionary of records, [get_mates] and
    [filter_family] select the family of one individual, and
    [generate_graph] builds a Graphviz graph and pipes it through the
    layout engine.

    - A text is a [string]; a character stands for a code point below 256.
    - A Python dictionary is a [gmap string _] and a Python set a
      [gset string].  The order in which a [for] loop goes through them is
      the order of [map_to_list] and [elements]; no result of the parser or
      of the filter depends on it.
    - The inner dictionary of an individual has six fixed keys and is never
      written after the parser made it: it is a [record].
    - A Python exception is the [Raise] branch of [result].
    - Where the identity of a dictionary matters (what [filter_family]
      writes to, and what it returns a reference to), module [Obj] has the
      dictionaries on a heap.
    - The layout engine and the page of the user interface are outside the
      script: the engine is a parameter of [generate_graph], and a call of
      the engine or of [st.error] is an [event]. *)

From Stdlib Require Import Ascii String.
From stdpp Require Import gmap strings list fin_maps.

Local Open Scope string_scope.
Local Set Warnings "-clear-no-such-hyp".

(** ** Exceptions *)

Inductive exn : Type :=
  | ValueError   (* tuple unpacking with the wrong number of values *)
  | KeyError.    (* subscript of a dictionary at a missing key *)

Inductive result (A : Type) : Type :=
  | Ok (a : A)
  | Raise (e : exn).
Arguments Ok {A} a.
Arguments Raise {A} e.

Global Instance result_bind : MBind result := λ A B k r,
  match r with
  | Ok a => k a
  | Raise e => Raise e
  end.

(** A [for] loop whose body may raise: the first exception ends the loop. *)
Fixpoint for_each {A S : Type} (body : S → A → result S) (xs : list A) (s : S)
  : result S :=
  match xs with
  | [] => Ok s
  | x :: xs' => s' ← body s x; for_each body xs' s'
  end.

(** ** Python string methods *)

Module Py.

(** [str.isspace] on one character, for the code points below 256: the
    characters [str.strip()] removes. *)
Definition is_space (c : ascii) : bool :=
  let n := nat_of_ascii c in
  (((9 <=? n) && (n <=? 13)) || ((28 <=? n) && (n <=? 32))
   || (n =? 133) || (n =? 160))%nat.

(** [s.split(sep)] for a separator of one character.  The result is never
    empty: the empty string splits into one empty field. *)
Fixpoint split (sep : ascii) (s : string) : list string :=
  match s with
  | EmptyString => [EmptyString]
  | String c s' =>
      if Ascii.eqb c sep then EmptyString :: split sep s'
      else match split sep s' with
           | [] => [String c EmptyString]
           | field :: fields => String c field :: fields
           end
  end.

Fixpoint lstrip (s : string) : string :=
  match s with
  | EmptyString => EmptyString
  | String c s' => if is_space c then lstrip s' else s
  end.

Fixpoint rstrip (s : string) : string :=
  match s with
  | EmptyString => EmptyString
  | String c s' =>
      match rstrip s' with
      | EmptyString => if is_space c then EmptyString else String c EmptyString
      | r => String c r
      end
  end.

(** [s.strip()] *)
Definition strip (s : string) : string := lstrip (rstrip s).

(** [sep.join(xs)] *)
Fixpoint join (sep : string) (xs : list string) : string :=
  match xs with
  | [] => EmptyString
  | [x] => x
  | x :: xs' => x +:+ sep +:+ join sep xs'
  end.

End Py.

Definition newline : ascii := ascii_of_nat 10.
Definition comma : ascii := ascii_of_nat 44.

(** ** The record store *)

(** The inner dictionary of one individual; its six keys are fixed. *)
Record record : Type := mk_record {
  father_id : string;
  mother_id : string;
  sex : string;
  usgs_band_id : string;
  hatch_year : string;
  aux_id : string;
}.

Global Instance record_eq_dec : EqDecision record.
Proof. solve_decision. Defined.

Abbreviation store := (gmap string record).

(** ** [parse_ped_file] *)

(** The body of the loop over the lines; the state is the set
    [seen_lines] and the dictionary [relationships]. *)
Definition parse_line (st : gset string * store) (line : string)
  : result (gset string * store) :=
  let '(seen_lines, relationships) := st in
  let line := Py.strip line in
  if decide (line = "") then Ok st
  else if decide (line ∈ seen_lines) then Ok st
  else
    let seen_lines := seen_lines ∪ {[line]} in
    let parts := Py.split comma line in
    if (length parts <? 7)%nat then Ok (seen_lines, relationships)
    else
      match parts with
      | [individual_id; father_id; mother_id; sex; usgs_band_id; hatch_year; aux_id] =>
          let sex_val := sex in
          let usgs_val :=
            if decide (usgs_band_id ≠ "0") then usgs_band_id else "N/A" in
          let hatch_val :=
            if decide (hatch_year ≠ "") then hatch_year else "N/A" in
          let aux_val := if decide (aux_id ≠ "0") then aux_id else "N/A" in
          Ok (seen_lines,
              <[individual_id :=
                  {| father_id := father_id;
                     mother_id := mother_id;
                     sex := sex_val;
                     usgs_band_id := usgs_val;
                     hatch_year := hatch_val;
                     aux_id := aux_val |}]> relationships)
      | _ => Raise ValueError
      end.

Definition parse_lines (lines : list string) : result (gset string * store) :=
  for_each parse_line lines (∅, ∅).

(** [file_contents] is the decoded text of the upload. *)
Definition parse_ped_file (file_contents : string) : result store :=
  st ← parse_lines (Py.split newline file_contents); Ok st.2.

(** ** [get_mates] *)

(** The body of the loop over [relationships.items()]. *)
Definition mates_step (relationships : store) (individual_id : string)
  (mates : gset string) (item : string * record) : gset string :=
  let '(iid, info) := item in
  let pid := father_id info in
  let mid := mother_id info in
  let mates :=
    if decide (pid = individual_id ∧ mid ∈ dom relationships ∧ mid ≠ "0")
    then mates ∪ {[mid]} else mates in
  let mates :=
    if decide (mid = individual_id ∧ pid ∈ dom relationships ∧ pid ≠ "0")
    then mates ∪ {[pid]} else mates in
  mates.

Definition get_mates (relationships : store) (individual_id : string)
  : gset string :=
  let mates : gset string := ∅ in
  if decide (individual_id ∉ dom relationships) then mates
  else foldl (mates_step relationships individual_id) mates
         (map_to_list relationships).

(** ** [filter_family] *)

(** [d[k]], which raises [KeyError] at a missing key. *)
Definition getitem {V : Type} (d : gmap string V) (k : string) : result V :=
  match d !! k with
  | Some v => Ok v
  | None => Raise KeyError
  end.

(** The body of the loop over the mates. *)
Definition family_add_mate (relationships : store) (family : store)
  (mate_id : string) : result store :=
  mate ← getitem relationships mate_id;
  Ok (<[mate_id := mate]> family).

(** The body of the loop over the children. *)
Definition family_add_child (individual_id : string) (mates : gset string)
  (filter_year : option string) (family : store) (item : string * record)
  : store :=
  let '(iid, info) := item in
  let cpid := father_id info in
  let cmid := mother_id info in
  if decide (cpid = individual_id ∨ cmid = individual_id
             ∨ cpid ∈ mates ∨ cmid ∈ mates)
  then
    if decide (filter_year = None ∨ filter_year = Some (hatch_year info))
    then <[iid := info]> family
    else family
  else family.

Definition filter_family (relationships : store) (individual_id : string)
  (filter_year : option string) : result store :=
  if decide (individual_id = "" ∨ individual_id ∉ dom relationships)
  then Ok relationships
  else
    let family : store := ∅ in
    focal ← getitem relationships individual_id;
    let family := <[individual_id := focal]> family in
    focal ← getitem relationships individual_id;
    let father_id' := father_id focal in
    focal ← getitem relationships individual_id;
    let mother_id' := mother_id focal in
    family ←
      (if decide (father_id' ∈ dom relationships ∧ father_id' ≠ "0")
       then (father ← getitem relationships father_id';
             Ok (<[father_id' := father]> family))
       else Ok family);
    family ←
      (if decide (mother_id' ∈ dom relationships ∧ mother_id' ≠ "0")
       then (mother ← getitem relationships mother_id';
             Ok (<[mother_id' := mother]> family))
       else Ok family);
    let mates := get_mates relationships individual_id in
    family ← for_each (family_add_mate relationships) (elements mates) family;
    Ok (foldl (family_add_child individual_id mates filter_year) family
          (map_to_list relationships)).

(** ** [generate_graph] *)

(** The statements a [graphviz.Digraph] collects in its body, in the order
    of the calls that add them. *)
#[warnings="-register-all"]
Inductive stmt : Type :=
  | Attr (kw : option string) (attrs : list (string * string))
  | Node (name : string) (attrs : list (string * string))
  | Edge (tail_name head_name : string) (attrs : list (string * string))
  | Subgraph (body : list stmt).

Record Digraph : Type := mk_Digraph {
  format : string;
  body : list stmt;
}.

(** What the closures [create_node] and [edge_color] share with the
    function: the graph [dot] and the set [drawn]. *)
Record canvas : Type := mk_canvas {
  dot : Digraph;
  drawn : gset string;
}.

Definition add_stmt (s : stmt) (c : canvas) : canvas :=
  {| dot := {| format := format (dot c); body := (body (dot c) ++ [s])%list |};
     drawn := drawn c |}.

Definition create_node (relationships : store) (c : canvas) (iid : string)
  : result canvas :=
  if decide ((iid ∉ drawn c) ∧ iid ∈ dom relationships) then (
    info ← getitem relationships iid;
    let label_lines := ["Individual: " +:+ iid] in
    let label_lines :=
      if decide (hatch_year info ≠ "" ∧ hatch_year info ≠ "N/A")
      then (label_lines ++ ["Hatch Year: " +:+ hatch_year info])%list
      else label_lines in
    let label_lines :=
      if decide (usgs_band_id info ≠ "")
      then (label_lines ++ ["Primary ID: " +:+ usgs_band_id info])%list
      else label_lines in
    let label_lines :=
      if decide (aux_id info ≠ "")
      then (label_lines ++ ["Aux ID: " +:+ aux_id info])%list
      else label_lines in
    let label := Py.join "\n" label_lines in
    let '(shape, fillcolor) :=
      if decide (sex info = "1") then ("box", "lightblue")
      else if decide (sex info = "2") then ("ellipse", "lightpink")
      else ("egg", "gray") in
    let c :=
      add_stmt (Node iid [("label", label); ("shape", shape);
                          ("style", "filled"); ("fillcolor", fillcolor)]) c in
    Ok {| dot := dot c; drawn := drawn c ∪ {[iid]} |})
  else Ok c.

Definition edge_color (relationships : store) (parent_id : string) : string :=
  let color := "gray" in
  match relationships !! parent_id with
  | Some parent_info =>
      if decide (sex parent_info = "1") then "blue"
      else if decide (sex parent_info = "2") then "red"
      else color
  | None => color
  end.

Definition add_edge (relationships : store) (parent child : string)
  (c : canvas) : canvas :=
  add_stmt (Edge parent child [("color", edge_color relationships parent)]) c.

(** [with dot.subgraph() as sub: sub.attr(rank="same"); ...]: the nodes
    made inside the block go to [dot] itself, and the subgraph, which holds
    the rank attribute alone, is appended when the block ends. *)
Definition rank_same : stmt := Subgraph [Attr None [("rank", "same")]].

(** The body of the loop that draws the children of a focused graph. *)
Definition draw_child (relationships : store) (FOCUS_ID : string)
  (mates : gset string) (c : canvas) (item : string * record) : result canvas :=
  let '(cid, cinfo) := item in
  let cpid := father_id cinfo in
  let cmid := mother_id cinfo in
  if decide ((cpid = FOCUS_ID ∨ cpid ∈ mates) ∨ (cmid = FOCUS_ID ∨ cmid ∈ mates))
  then (
    c ← create_node relationships c cid;
    let c := if decide (cpid = FOCUS_ID ∨ cpid ∈ mates)
             then add_edge relationships cpid cid c else c in
    let c := if decide (cmid = FOCUS_ID ∨ cmid ∈ mates)
             then add_edge relationships cmid cid c else c in
    Ok c)
  else Ok c.

(** The body of the loop that draws the edges of an unfocused graph. *)
Definition draw_parent_edges (relationships : store) (c : canvas)
  (item : string * record) : canvas :=
  let '(iid, info) := item in
  let pid := father_id info in
  let mid := mother_id info in
  let c := if decide (pid ∈ dom relationships ∧ pid ≠ "0")
           then add_edge relationships pid iid c else c in
  let c := if decide (mid ∈ dom relationships ∧ mid ≠ "0")
           then add_edge relationships mid iid c else c in
  c.

(** [FOCUS_ID and FOCUS_ID in relationships] *)
Definition focused (relationships : store) (FOCUS_ID : option string)
  : option string :=
  match FOCUS_ID with
  | Some f => if decide (f ≠ "" ∧ f ∈ dom relationships) then Some f else None
  | None => None
  end.

(** Everything [generate_graph] does between the test for an empty store
    and the call of the layout engine. *)
Definition build_graph (relationships : store) (FOCUS_ID : option string)
  : result Digraph :=
  let c :=
    {| dot := {| format := "png"; body := [] |}; drawn := ∅ |} in
  let c := add_stmt (Attr None [("rankdir", "TB"); ("nodesep", "0.2");
                                ("ranksep", "0.6"); ("size", "8,8!")]) c in
  let c := add_stmt (Attr (Some "graph") [("dpi", "1000")]) c in
  c ←
    match focused relationships FOCUS_ID with
    | Some FOCUS_ID =>
        focal ← getitem relationships FOCUS_ID;
        let father_id' := father_id focal in
        focal ← getitem relationships FOCUS_ID;
        let mother_id' := mother_id focal in
        let mates := get_mates relationships FOCUS_ID in
        c ←
          (if decide (father_id' ∈ dom relationships ∧ father_id' ≠ "0"
                      ∧ mother_id' ∈ dom relationships ∧ mother_id' ≠ "0")
           then (
             c ← create_node relationships c father_id';
             c ← create_node relationships c mother_id';
             let c := add_stmt rank_same c in
             let c := add_edge relationships father_id' FOCUS_ID c in
             let c := add_edge relationships mother_id' FOCUS_ID c in
             Ok c)
           else (
             c ←
               (if decide (father_id' ∈ dom relationships ∧ father_id' ≠ "0")
                then (c ← create_node relationships c father_id';
                      Ok (add_edge relationships father_id' FOCUS_ID c))
                else Ok c);
             c ←
               (if decide (mother_id' ∈ dom relationships ∧ mother_id' ≠ "0")
                then (c ← create_node relationships c mother_id';
                      Ok (add_edge relationships mother_id' FOCUS_ID c))
                else Ok c);
             Ok c));
        c ← create_node relationships c FOCUS_ID;
        c ← for_each (create_node relationships) (elements mates) c;
        let c := add_stmt rank_same c in
        for_each (draw_child relationships FOCUS_ID mates)
          (map_to_list relationships) c
    | None =>
        c ← for_each (create_node relationships)
              (map_to_list relationships).*1 c;
        Ok (foldl (draw_parent_edges relationships) c
              (map_to_list relationships))
    end;
  Ok (dot c).

(** What [generate_graph] does to the outside: it calls the layout engine
    ([dot.pipe]) and it reports an error to the page ([st.error]). *)
Inductive event : Type :=
  | Pipe (d : Digraph) (fmt : string)
  | StError (msg : string).

Section Renderer.

(** The layout engine: the bytes of the image, or the text of the
    [Exception] it raised. *)
Variable engine : Digraph → string → list Byte.byte + string.

Definition generate_graph (relationships : store) (FOCUS_ID : option string)
  : list event * result (option (list Byte.byte)) :=
  if decide (relationships = ∅) then ([], Ok None)
  else
    match build_graph relationships FOCUS_ID with
    | Raise e => ([], Raise e)
    | Ok d =>
        match engine d "png" with
        | inl png => ([Pipe d "png"], Ok (Some png))
        | inr error =>
            ([Pipe d "png"; StError ("Error generating PNG: " +:+ error)],
             Ok None)
        end
    end.

End Renderer.

(** ** The page

    The script below the functions runs once per interaction: it parses
    the upload, picks the focus from the two text inputs, reads the year
    filter, filters, renders and offers the image for download.  The table
    of the parsed data is display only and is left out. *)

(** What the page tells the user while it picks the focus: the warning for
    an unknown id, the note for a band with one match, and the warnings
    for a band with several matches and with none. *)
Inductive notice : Type :=
  | NoMatchForId (individual_id : string)
  | FoundForBand (FOCUS_ID band_id : string)
  | MultipleForBand (band_id : string) (found_ids : list string)
  | NoneForBand (band_id : string).



Section Page.

(** [relationships.items()] in the order Python goes through it, the
    order in which the keys were first inserted. *)
Variable items : store → list (string * record).

(** Step 4 of the page: the focus, from the individual id when one is
    typed, and from the band id otherwise. *)
Definition resolve_focus (relationships : store)
  (individual_id band_id : string) : option string * list notice :=
  let FOCUS_ID : option string := None in
  if decide (Py.strip individual_id ≠ "") then
    if decide (individual_id ∈ dom relationships)
    then (Some individual_id, [])
    else (FOCUS_ID, [NoMatchForId individual_id])
  else if decide (Py.strip band_id ≠ "") then
    let found_ids :=
      (filter (λ it, usgs_band_id it.2 = band_id) (items relationships)).*1 in
    match found_ids with
    | [found] => (Some found, [FoundForBand found band_id])
    | first :: _ :: _ => (Some first, [MultipleForBand band_id found_ids])
    | [] => (FOCUS_ID, [NoneForBand band_id])
    end
  else (FOCUS_ID, []).


End Page.

(** ** Dictionaries as objects

    A Python dictionary is an object: [filter_family] receives a reference
    to the store and may return that same reference.  Here a heap maps a
    location to the dictionary there, and a computation threads the heap
    and may raise; an exception keeps the writes made before it.  A
    location with no dictionary reads as the empty dictionary; the
    properties below start from a heap that has the store at its location.
    A loop over [d.items()] goes through the items [d] has when the loop
    starts. *)

Module Obj.

Definition loc : Type := positive.
Abbreviation heap := (gmap loc store).

Definition M (A : Type) : Type := heap → result A * heap.

Definition ret {A : Type} (a : A) : M A := λ h, (Ok a, h).

Definition bind {A B : Type} (m : M A) (k : A → M B) : M B := λ h,
  match m h with
  | (Ok a, h') => k a h'
  | (Raise e, h') => (Raise e, h')
  end.

Notation "x ⇐ m ; k" := (bind m (λ x, k))
  (at level 20, m at level 100, k at level 200, right associativity,
   only parsing).

(** [{}]: a new, empty dictionary at a location not in use. *)
Definition new_dict : M loc := λ h,
  let l := fresh (dom h) in (Ok l, <[l := ∅]> h).

(** [k in d] *)
Definition contains (d : loc) (k : string) : M bool := λ h,
  (Ok (bool_decide (k ∈ (dom (h !!! d) : gset string))), h).

(** [d[k]] *)
Definition getitem (d : loc) (k : string) : M record := λ h,
  match (h !!! d) !! k with
  | Some v => (Ok v, h)
  | None => (Raise KeyError, h)
  end.

(** [d[k] = v] *)
Definition setitem (d : loc) (k : string) (v : record) : M unit := λ h,
  (Ok (), <[d := <[k := v]> (h !!! d)]> h).

(** [d.items()], as the list a loop over it goes through. *)
Definition items (d : loc) : M (list (string * record)) := λ h,
  (Ok (map_to_list (h !!! d)), h).

(** A [for] loop with a local variable [s]. *)
Fixpoint for_each {A S : Type} (body : S → A → M S) (xs : list A) (s : S)
  : M S :=
  match xs with
  | [] => ret s
  | x :: xs' => s' ⇐ body s x; for_each body xs' s'
  end.

Definition get_mates (relationships : loc) (individual_id : string)
  : M (gset string) :=
  let mates : gset string := ∅ in
  known ⇐ contains relationships individual_id;
  if negb known then ret mates
  else
    its ⇐ items relationships;
    for_each (λ mates '(iid, info),
        let pid := father_id info in
        let mid := mother_id info in
        mid_known ⇐ contains relationships mid;
        let mates :=
          if bool_decide (pid = individual_id) && mid_known
             && bool_decide (mid ≠ "0")
          then mates ∪ {[mid]} else mates in
        pid_known ⇐ contains relationships pid;
        let mates :=
          if bool_decide (mid = individual_id) && pid_known
             && bool_decide (pid ≠ "0")
          then mates ∪ {[pid]} else mates in
        ret mates)
      its mates.

Definition filter_family (relationships : loc) (individual_id : string)
  (filter_year : option string) : M loc :=
  known ⇐ contains relationships individual_id;
  if bool_decide (individual_id = "") || negb known then ret relationships
  else
    family ⇐ new_dict;
    focal ⇐ getitem relationships individual_id;
    _ ⇐ setitem family individual_id focal;
    focal ⇐ getitem relationships individual_id;
    let father_id' := father_id focal in
    focal ⇐ getitem relationships individual_id;
    let mother_id' := mother_id focal in
    father_known ⇐ contains relationships father_id';
    _ ⇐ (if father_known && bool_decide (father_id' ≠ "0")
         then father ⇐ getitem relationships father_id';
              setitem family father_id' father
         else ret ());
    mother_known ⇐ contains relationships mother_id';
    _ ⇐ (if mother_known && bool_decide (mother_id' ≠ "0")
         then mother ⇐ getitem relationships mother_id';
              setitem family mother_id' mother
         else ret ());
    mates ⇐ get_mates relationships individual_id;
    _ ⇐ for_each (λ _ mate_id,
            mate ⇐ getitem relationships mate_id;
            setitem family mate_id mate)
          (elements mates) ();
    its ⇐ items relationships;
    _ ⇐ for_each (λ _ '(iid, info),
            let cpid := father_id info in
            let cmid := mother_id info in
            if decide (cpid = individual_id ∨ cmid = individual_id
                       ∨ cpid ∈ mates ∨ cmid ∈ mates)
            then
              if decide (filter_year = None
                         ∨ filter_year = Some (hatch_year info))
              then setitem family iid info
              else ret ()
            else ret ())
          its ();
    ret family.

End Obj.

(** * The vocabulary of the properties *)

Definition scenario_store : store :=
  <["A3" := mk_record "A1" "A2" "1" "B123" "1999" "N/A"]>
    (<["A2" := mk_record "0" "0" "2" "N/A" "N/A" "N/A"]>
      (<["A1" := mk_record "0" "0" "1" "N/A" "N/A" "N/A"]> ∅)).

(** [info] is the record of a child of [individual_id] whose other parent
    is [x], a key of the store other than the sentinel. *)
Definition mate_via (relationships : store) (individual_id : string)
  (info : record) (x : string) : Prop :=
  (father_id info = individual_id ∧ mother_id info = x
   ∨ mother_id info = individual_id ∧ father_id info = x)
  ∧ x ∈ dom relationships ∧ x ≠ "0".

(** [info] is the record of a child of the focal individual or of one of
    its mates. *)
Definition is_child (individual_id : string) (mates : gset string)
  (info : record) : Prop :=
  father_id info = individual_id ∨ mother_id info = individual_id
  ∨ father_id info ∈ mates ∨ mother_id info ∈ mates.

(** The year filter lets [info] through. *)
Definition year_ok (filter_year : option string) (info : record) : Prop :=
  filter_year = None ∨ filter_year = Some (hatch_year info).

(** [p] is a parent named by the focal record that the filter keeps. *)
Definition valid_parent (relationships : store) (p : string) : Prop :=
  p ∈ dom relationships ∧ p ≠ "0".

(** The keys the filter selects around a focal individual whose record is
    [focal]. *)
Definition in_family (relationships : store) (individual_id : string)
  (focal : record) (filter_year : option string) (k : string) : Prop :=
  k = individual_id
  ∨ (k = father_id focal ∧ valid_parent relationships k)
  ∨ (k = mother_id focal ∧ valid_parent relationships k)
  ∨ k ∈ get_mates relationships individual_id
  ∨ ∃ info, relationships !! k = Some info
            ∧ is_child individual_id (get_mates relationships individual_id) info
            ∧ year_ok filter_year info.

(** A store in which the empty string is a key: the line [",0,0,1,0,,0"]
    has seven fields, the first of them empty. *)
Definition unnamed_store : store :=
  <["" := mk_record "0" "0" "1" "N/A" "N/A" "N/A"]>
    {["X" := mk_record "0" "0" "2" "N/A" "2001" "N/A"]}.

(** A pedigree with a father mated to his daughter: ["M"] is a child of
    ["F"] and, through ["C"], also a mate of ["F"]. *)
Definition inbred_store : store :=
  <["C" := mk_record "F" "M" "1" "N/A" "2000" "N/A"]>
    (<["M" := mk_record "F" "M2" "2" "N/A" "1999" "N/A"]>
      (<["M2" := mk_record "0" "0" "2" "N/A" "N/A" "N/A"]>
        {["F" := mk_record "0" "0" "1" "N/A" "N/A" "N/A"]})).

(** [c] occurs in [s]. *)
Fixpoint char_in (c : ascii) (s : string) : bool :=
  match s with
  | EmptyString => false
  | String a s' => Ascii.eqb a c || char_in c s'
  end.

(** The text whose lines are [ls]: ["\n".join(ls)]. *)
Definition unlines (ls : list string) : string :=
  Py.join (String newline EmptyString) ls.

(** The record the parser stores for a line of seven fields. *)
Definition normalized (f m s u h a : string) : record :=
  {| father_id := f;
     mother_id := m;
     sex := s;
     usgs_band_id := if decide (u = "0") then "N/A" else u;
     hatch_year := if decide (h = "") then "N/A" else h;
     aux_id := if decide (a = "0") then "N/A" else a |}.

Definition two_lines : string :=
  "A1,0,0,1,0,0,0" +:+ String newline "A2,0,0,2,B7,,X".

(** A store of a parent and a child, and the graph focused on the parent. *)
Definition tiny_store : store :=
  <["K" := mk_record "P" "0" "2" "N/A" "2001" ""]>
    {["P" := mk_record "0" "0" "1" "B1" "N/A" "N/A"]}.

Definition tiny_graph : Digraph :=
  {| format := "png";
     body :=
       [Attr None [("rankdir", "TB"); ("nodesep", "0.2");
                   ("ranksep", "0.6"); ("size", "8,8!")];
        Attr (Some "graph") [("dpi", "1000")];
        Node "P" [("label", "Individual: P\nPrimary ID: B1\nAux ID: N/A");
                  ("shape", "box"); ("style", "filled");
                  ("fillcolor", "lightblue")];
        Subgraph [Attr None [("rank", "same")]];
        Node "K" [("label", "Individual: K\nHatch Year: 2001\nPrimary ID: N/A");
                  ("shape", "ellipse"); ("style", "filled");
                  ("fillcolor", "lightpink")];
        Edge "P" "K" [("color", "blue")]] |}.

(** The fields of a line: the trimmed text, split at the commas. *)
Definition fields (line : string) : list string :=
  Py.split comma (Py.strip line).

(** The record [r] under the id [i] is made from a line of [lines] that has
    seven fields, the first of them [i]. *)
Definition from_line (lines : list string) (i : string) (r : record) : Prop :=
  ∃ line f m s u h a,
    line ∈ lines ∧ fields line = [i; f; m; s; u; h; a]
    ∧ r = normalized f m s u h a.

(** The text of the three individuals of [scenario_store], with a blank
    line, a short line and a repeated line among them. *)
Definition scenario_text : string :=
  unlines ["A1,0,0,1,0,,0"; ""; "A2,0,0,2,0,,0"; "only,three,fields";
           "  A1,0,0,1,0,,0"; "A3,A1,A2,1,B123,1999,0"].

(** The names of the nodes of a graph body, in the order they were drawn,
    and its edges as pairs of tail and head. *)
Fixpoint node_names (b : list stmt) : list string :=
  match b with
  | [] => []
  | Node n _ :: b' => n :: node_names b'
  | _ :: b' => node_names b'
  end.

Fixpoint edge_pairs (b : list stmt) : list (string * string) :=
  match b with
  | [] => []
  | Edge p c _ :: b' => (p, c) :: edge_pairs b'
  | _ :: b' => edge_pairs b'
  end.

(** The shape and the fill of a node, and the color of an edge, by the sex
    code: male, female, anything else. *)
Definition by_sex {X : Type} (male female unknown : X) (sex : string) : X :=
  if decide (sex = "1") then male
  else if decide (sex = "2") then female
  else unknown.

(** What a statement of a finished graph looks like: a node is a key of
    the store, shaped and filled by the sex of its record; an edge is
    colored by the sex of its tail, gray when the tail is no key; a
    subgraph holds a rank attribute and nothing else. *)
Definition stmt_ok (relationships : store) (s : stmt) : Prop :=
  match s with
  | Attr _ _ => True
  | Node n attrs =>
      ∃ info label,
        relationships !! n = Some info
        ∧ attrs = [("label", label);
                   ("shape", by_sex "box" "ellipse" "egg" (sex info));
                   ("style", "filled");
                   ("fillcolor",
                    by_sex "lightblue" "lightpink" "gray" (sex info))]
  | Edge p c attrs =>
      attrs = [("color",
                match relationships !! p with
                | Some info => by_sex "blue" "red" "gray" (sex info)
                | None => "gray"
                end)]
  | Subgraph b => b = [Attr None [("rank", "same")]]
  end.

(** The canvas is in order: no node is drawn twice, the set [drawn] holds
    the nodes drawn and only keys of the store, and every statement is as
    [stmt_ok] says. *)
Definition canvas_ok (relationships : store) (c : canvas) : Prop :=
  NoDup (node_names (body (dot c)))
  ∧ (∀ x, x ∈ node_names (body (dot c)) ↔ x ∈ drawn c)
  ∧ Forall (stmt_ok relationships) (body (dot c)).

(** From the canvas [c] to the canvas [c'], which is in order, the nodes
    [D] were drawn and the edges [E] were added, and nothing else. *)
Definition draws (relationships : store) (c c' : canvas)
  (D : string → Prop) (E : string * string → Prop) : Prop :=
  canvas_ok relationships c'
  ∧ (∀ x, x ∈ drawn c' ↔ x ∈ drawn c ∨ D x)
  ∧ (∀ e, e ∈ edge_pairs (body (dot c'))
          ↔ e ∈ edge_pairs (body (dot c)) ∨ E e).

(** The edge [e] goes to the child [item] from a parent its record names,
    and that parent is the focal individual or one of its mates. *)
Definition child_edge (FOCUS_ID : string) (mates : gset string)
  (item : string * record) (e : string * string) : Prop :=
  e.2 = item.1
  ∧ (e.1 = father_id item.2 ∨ e.1 = mother_id item.2)
  ∧ (e.1 = FOCUS_ID ∨ e.1 ∈ mates).

(** The edge [e] goes to [item] from a parent its record names that is a
    key of the store and not the sentinel. *)
Definition parent_edge (relationships : store) (item : string * record)
  (e : string * string) : Prop :=
  e.2 = item.1
  ∧ (e.1 = father_id item.2 ∨ e.1 = mother_id item.2)
  ∧ e.1 ∈ dom relationships ∧ e.1 ≠ "0".

(** Every line of seven fields with the id [i] has the trimmed text [t]:
    [l] is no such line with another text. *)
Definition only_line_for_id (t i l : string) : Prop :=
  ∀ rest, Py.split comma (Py.strip l) = i :: rest → length rest = 6%nat →
          Py.strip l = t.

(** The heap [h'] has the store [rel] at the location [l]. *)
Definition holds (l : Obj.loc) (rel : store) (h' : Obj.heap) : Prop :=
  h' !! l = Some rel.

(** * Properties *)

(** ** The scenario of the specification *)

Example parse_scenario :
  parse_ped_file
    ("A1,0,0,1,0,,0" +:+ String newline "A2,0,0,2,0,,0" +:+
     String newline "A3,A1,A2,1,B123,1999,0")
  = Ok (<["A3" := mk_record "A1" "A2" "1" "B123" "1999" "N/A"]>
        (<["A2" := mk_record "0" "0" "2" "N/A" "N/A" "N/A"]>
         (<["A1" := mk_record "0" "0" "1" "N/A" "N/A" "N/A"]> ∅))).
Proof. vm_compute. reflexivity. Qed.

Example filter_scenario_no_year :
  filter_family scenario_store "A3" None = Ok scenario_store.
Proof. vm_compute. reflexivity. Qed.

Example filter_scenario_year :
  filter_family scenario_store "A1" (Some "2000")
  = Ok (<["A2" := mk_record "0" "0" "2" "N/A" "N/A" "N/A"]>
         (<["A1" := mk_record "0" "0" "1" "N/A" "N/A" "N/A"]> ∅)).
Proof. vm_compute. reflexivity. Qed.


(** ** The mate relation *)

Lemma mates_step_spec relationships individual_id mates item x :
  x ∈ mates_step relationships individual_id mates item
  ↔ x ∈ mates ∨ mate_via relationships individual_id item.2 x.
Proof.
  destruct item as [iid info]. unfold mates_step, mate_via. simpl.
  repeat case_decide; set_unfold; naive_solver.
Qed.

Lemma mates_fold_spec relationships individual_id its mates x :
  x ∈ foldl (mates_step relationships individual_id) mates its
  ↔ x ∈ mates
    ∨ ∃ item, item ∈ its ∧ mate_via relationships individual_id item.2 x.
Proof.
  revert mates. induction its as [|item its IH]; intros mates; simpl.
  - split; [auto|]. intros [?|(item & Hin & _)]; [done|].
    by apply elem_of_nil in Hin.
  - rewrite IH, mates_step_spec. split.
    + intros [[?|?]|(it & ? & ?)]; [by left| |].
      * right. exists item. split; [left|done].
      * right. exists it. split; [by right|done].
    + intros [?|(it & Hin & ?)]; [by left; left|].
      apply elem_of_cons in Hin as [->|?]; [by left; right|].
      right. by exists it.
Qed.

Lemma elem_of_get_mates relationships individual_id x :
  x ∈ get_mates relationships individual_id
  ↔ individual_id ∈ dom relationships
    ∧ ∃ iid info, relationships !! iid = Some info
                  ∧ mate_via relationships individual_id info x.
Proof.
  unfold get_mates. case_decide as Hid.
  - split; [set_solver|]. intros [? _]. done.
  - rewrite mates_fold_spec. split.
    + intros [?|([iid info] & Hin & ?)]; [set_solver|].
      split; [done|]. exists iid, info. split; [|done].
      by apply elem_of_map_to_list.
    + intros [_ (iid & info & Hin & ?)]. right. exists (iid, info).
      split; [|done]. by apply elem_of_map_to_list.
Qed.

(** C10.  The set [get_mates] returns holds keys of the store only and never
    the sentinel ["0"]; for an identifier that is not a key it is empty; and
    it may hold the queried identifier itself, as it does when one record
    names the same id as father and as mother. *)
Theorem get_mates_invariant :
  (∀ (relationships : store) individual_id,
     get_mates relationships individual_id ⊆ dom relationships
     ∧ "0" ∉ get_mates relationships individual_id)
  ∧ (∀ (relationships : store) individual_id,
       individual_id ∉ dom relationships →
       get_mates relationships individual_id = ∅)
  ∧ (∃ (relationships : store) individual_id,
       individual_id ∈ get_mates relationships individual_id).
Proof.
  split; [|split].
  - intros relationships individual_id. split.
    + intros x Hx. apply elem_of_get_mates in Hx.
      destruct Hx as (_ & _ & _ & _ & _ & Hdom & _). exact Hdom.
    + intros Hx. apply elem_of_get_mates in Hx.
      destruct Hx as (_ & _ & _ & _ & _ & _ & Hne). by apply Hne.
  - intros relationships individual_id Hid. unfold get_mates.
    by rewrite decide_True.
  - exists (<["S" := mk_record "0" "0" "1" "N/A" "N/A" "N/A"]>
             {["K" := mk_record "S" "S" "2" "N/A" "2001" "N/A"]}), "S".
    compute_done.
Qed.

(** ** Mate symmetry *)

(** C3, as stated, fails: a record whose parents are unknown (the sentinel
    ["0"], which is not a key) does not make its parents mates. *)
Lemma mate_symmetry_counterexample :
  ¬ (∀ (relationships : store) A B C info,
       relationships !! C = Some info →
       father_id info = A → mother_id info = B →
       B ∈ get_mates relationships A ∧ A ∈ get_mates relationships B).
Proof.
  intros Hclaim.
  destruct (Hclaim {["A1" := mk_record "0" "0" "1" "N/A" "N/A" "N/A"]}
              "0" "0" "A1" (mk_record "0" "0" "1" "N/A" "N/A" "N/A"))
    as [Hin _]; [vm_compute; reflexivity|reflexivity|reflexivity|].
  revert Hin. compute_done.
Qed.

(** C3, amended.  When a record of the store names father [A] and mother
    [B], [B] is a mate of [A] and [A] is a mate of [B] exactly when both
    are keys of the store and neither is the sentinel ["0"]. *)
Theorem mate_symmetry (relationships : store) C info :
  relationships !! C = Some info →
  (mother_id info ∈ get_mates relationships (father_id info)
   ∧ father_id info ∈ get_mates relationships (mother_id info))
  ↔ (father_id info ∈ dom relationships ∧ father_id info ≠ "0"
     ∧ mother_id info ∈ dom relationships ∧ mother_id info ≠ "0").
Proof.
  intros HC. rewrite !elem_of_get_mates. unfold mate_via. split.
  - intros [(HA & _ & _ & _ & _ & HB & HB0) (_ & _ & _ & _ & _ & _ & HA0)].
    done.
  - intros (HA & HA0 & HB & HB0). split.
    + split; [done|]. exists C, info. split; [done|].
      split; [by left|done].
    + split; [done|]. exists C, info. split; [done|].
      split; [by right|done].
Qed.

Lemma mate_symmetry_witness :
  "A2" ∈ get_mates scenario_store "A1" ∧ "A1" ∈ get_mates scenario_store "A2".
Proof.
  apply (mate_symmetry scenario_store "A3"
           (mk_record "A1" "A2" "1" "B123" "1999" "N/A")).
  - vm_compute; reflexivity.
  - repeat split; compute_done.
Defined.

(** ** The family filter *)

Lemma getitem_Some {V} (d : gmap string V) k v :
  d !! k = Some v → getitem d k = Ok v.
Proof. unfold getitem. by intros ->. Qed.

Lemma insert_family_subseteq (relationships family : store) k v :
  relationships !! k = Some v → family ⊆ relationships →
  <[k := v]> family ⊆ relationships.
Proof. intros Hk Hsub. by apply insert_subseteq_l. Qed.

Lemma bind_Ok {A B} (a : A) (k : A → result B) : Ok a ≫= k = k a.
Proof. reflexivity. Qed.

Lemma bind_Raise {A B} (e : exn) (k : A → result B) : Raise e ≫= k = Raise e.
Proof. reflexivity. Qed.

Lemma family_add_mate_Some (relationships family : store) m v :
  relationships !! m = Some v →
  family_add_mate relationships family m = Ok (<[m := v]> family).
Proof. intros Hv. unfold family_add_mate. by rewrite (getitem_Some _ _ _ Hv). Qed.

(** The loop over the mates cannot raise when every mate is a key. *)
Lemma family_add_mates_spec (relationships : store) (ms : list string) :
  ∀ family : store,
    (∀ x, x ∈ ms → x ∈ dom relationships) →
    family ⊆ relationships →
    ∃ family' : store,
      for_each (family_add_mate relationships) ms family = Ok family'
      ∧ family' ⊆ relationships
      ∧ ∀ k, k ∈ dom family' ↔ k ∈ dom family ∨ k ∈ ms.
Proof.
  induction ms as [|m ms IH]; intros family Hms Hsub; simpl.
  - exists family. split; [done|]. split; [done|].
    intros k. rewrite elem_of_nil. tauto.
  - assert (m ∈ dom relationships) as Hm by (apply Hms; left).
    apply elem_of_dom in Hm as [v Hv].
    rewrite (family_add_mate_Some _ _ _ _ Hv), bind_Ok.
    destruct (IH (<[m := v]> family)) as (family' & Hrun & Hsub' & Hdom).
    + intros x Hx. apply Hms. by right.
    + by apply insert_family_subseteq.
    + exists family'. split; [done|]. split; [done|].
      intros k. rewrite Hdom, dom_insert_L, elem_of_union, elem_of_singleton,
        elem_of_cons. tauto.
Qed.

Lemma family_add_child_spec individual_id mates filter_year
  (relationships family : store) iid info :
  relationships !! iid = Some info →
  family ⊆ relationships →
  let family' :=
    family_add_child individual_id mates filter_year family (iid, info) in
  family' ⊆ relationships
  ∧ ∀ k, k ∈ dom family'
         ↔ k ∈ dom family
           ∨ k = iid ∧ is_child individual_id mates info
             ∧ year_ok filter_year info.
Proof.
  intros Hiid Hsub. unfold family_add_child, is_child, year_ok. simpl.
  repeat case_decide.
  - split; [by apply insert_family_subseteq|].
    intros k. rewrite dom_insert_L, elem_of_union, elem_of_singleton. tauto.
  - split; [done|]. tauto.
  - split; [done|]. tauto.
Qed.

Lemma family_add_children_spec individual_id mates filter_year
  (relationships : store) (its : list (string * record)) :
  ∀ family : store,
    (∀ it, it ∈ its → relationships !! it.1 = Some it.2) →
    family ⊆ relationships →
    let family' :=
      foldl (family_add_child individual_id mates filter_year) family its in
    family' ⊆ relationships
    ∧ ∀ k, k ∈ dom family'
           ↔ k ∈ dom family
             ∨ ∃ info, (k, info) ∈ its ∧ is_child individual_id mates info
                       ∧ year_ok filter_year info.
Proof.
  induction its as [|[iid info] its IH]; intros family Hits Hsub; simpl.
  - split; [done|]. intros k. split; [auto|].
    intros [?|(info & Hin & _)]; [done|]. by apply elem_of_nil in Hin.
  - assert (relationships !! iid = Some info) as Hiid
      by (apply (Hits (iid, info)); left).
    destruct (family_add_child_spec individual_id mates filter_year
                relationships family iid info Hiid Hsub) as [Hsub1 Hdom1].
    destruct (IH _ (λ it Hin, Hits it (list_elem_of_further _ _ _ Hin)) Hsub1)
      as [Hsub2 Hdom2].
    split; [done|]. intros k. rewrite Hdom2, Hdom1. split.
    + intros [[?|(-> & ? & ?)]|(info' & ? & ?)]; [by left| |].
      * right. exists info. split; [left|done].
      * right. exists info'. split; [by right|done].
    + intros [?|(info' & Hin & ?)]; [by left; left|].
      apply elem_of_cons in Hin as [[= -> ->]|?]; [by left; right|].
      right. by exists info'.
Qed.

Lemma get_mates_dom (relationships : store) individual_id x :
  x ∈ get_mates relationships individual_id → x ∈ dom relationships.
Proof.
  intros Hx. apply elem_of_get_mates in Hx.
  by destruct Hx as (_ & _ & _ & _ & _ & Hdom & _).
Qed.

(** With a focal identifier that is a key and is not empty, the filter
    returns, and what it returns is the store restricted to [in_family]. *)
Lemma filter_family_spec (relationships : store) individual_id filter_year focal :
  individual_id ≠ "" →
  relationships !! individual_id = Some focal →
  ∃ family : store,
    filter_family relationships individual_id filter_year = Ok family
    ∧ family ⊆ relationships
    ∧ ∀ k, k ∈ dom family
           ↔ in_family relationships individual_id focal filter_year k.
Proof.
  intros Hne Hfocal. unfold filter_family.
  rewrite decide_False
    by (intros [?|Hnot]; [done|]; apply Hnot; by apply elem_of_dom_2 in Hfocal).
  rewrite !(getitem_Some _ _ _ Hfocal), !bind_Ok.
  set (family0 := <[individual_id := focal]> (∅ : store)).
  assert (family0 ⊆ relationships) as Hsub0
    by (apply insert_family_subseteq; [done|apply map_empty_subseteq]).
  assert (∀ k, k ∈ dom family0 ↔ k = individual_id) as Hdom0.
  { intros k. unfold family0.
    rewrite dom_insert_L, dom_empty_L. set_solver. }
  (* the father *)
  assert (∃ family1 : store,
    (if decide (father_id focal ∈ dom relationships ∧ father_id focal ≠ "0")
     then father ← getitem relationships (father_id focal);
          Ok (<[father_id focal := father]> family0)
     else Ok family0) = Ok family1
    ∧ family1 ⊆ relationships
    ∧ ∀ k, k ∈ dom family1
           ↔ k ∈ dom family0
             ∨ (k = father_id focal ∧ valid_parent relationships k))
    as (family1 & -> & Hsub1 & Hdom1).
  { case_decide as Hp.
    - destruct Hp as [Hp Hp0]. pose proof Hp as Hp'.
      apply elem_of_dom in Hp' as [father Hfather].
      rewrite (getitem_Some _ _ _ Hfather), bind_Ok. eexists. split; [done|].
      split; [by apply insert_family_subseteq|].
      intros k. rewrite dom_insert_L, elem_of_union, elem_of_singleton.
      unfold valid_parent. split; [intros [->|?]; auto|].
      intros [?|[? _]]; auto.
    - exists family0. split; [done|]. split; [done|].
      intros k. unfold valid_parent. split; [auto|].
      intros [?|[-> ?]]; [done|]. by destruct Hp. }
  rewrite bind_Ok.
  (* the mother *)
  assert (∃ family2 : store,
    (if decide (mother_id focal ∈ dom relationships ∧ mother_id focal ≠ "0")
     then mother ← getitem relationships (mother_id focal);
          Ok (<[mother_id focal := mother]> family1)
     else Ok family1) = Ok family2
    ∧ family2 ⊆ relationships
    ∧ ∀ k, k ∈ dom family2
           ↔ k ∈ dom family1
             ∨ (k = mother_id focal ∧ valid_parent relationships k))
    as (family2 & -> & Hsub2 & Hdom2).
  { case_decide as Hp.
    - destruct Hp as [Hp Hp0]. pose proof Hp as Hp'.
      apply elem_of_dom in Hp' as [mother Hmother].
      rewrite (getitem_Some _ _ _ Hmother), bind_Ok. eexists. split; [done|].
      split; [by apply insert_family_subseteq|].
      intros k. rewrite dom_insert_L, elem_of_union, elem_of_singleton.
      unfold valid_parent. split; [intros [->|?]; auto|].
      intros [?|[? _]]; auto.
    - exists family1. split; [done|]. split; [done|].
      intros k. unfold valid_parent. split; [auto|].
      intros [?|[-> ?]]; [done|]. by destruct Hp. }
  rewrite bind_Ok.
  (* the mates *)
  destruct (family_add_mates_spec relationships
              (elements (get_mates relationships individual_id)) family2)
    as (family3 & -> & Hsub3 & Hdom3); [|done|].
  { intros x Hx. apply elem_of_elements in Hx. by eapply get_mates_dom. }
  rewrite bind_Ok.
  (* the children *)
  destruct (family_add_children_spec individual_id
              (get_mates relationships individual_id) filter_year
              relationships (map_to_list relationships) family3)
    as [Hsub4 Hdom4]; [|done|].
  { intros [k v] Hin. by apply elem_of_map_to_list in Hin. }
  eexists. split; [done|]. split; [done|].
  intros k. rewrite Hdom4, Hdom3, Hdom2, Hdom1, Hdom0, elem_of_elements.
  unfold in_family.
  split.
  - intros [[[[?|?]|?]|?]|(info & Hin & ?)]; auto.
    do 4 right. exists info. split; [|done]. by apply elem_of_map_to_list.
  - intros [?|[?|[?|[?|(info & Hin & ?)]]]]; auto 6.
    right. exists info. split; [|done]. by apply elem_of_map_to_list.
Qed.

(** The guard at the head of [filter_family]. *)
Lemma filter_family_pass (relationships : store) individual_id filter_year :
  individual_id = "" ∨ individual_id ∉ dom relationships →
  filter_family relationships individual_id filter_year = Ok relationships.
Proof. intros Hid. unfold filter_family. by rewrite decide_True. Qed.

(** C5.  With a focal identifier that is empty or is not a key of the
    store, and any year filter, [filter_family] returns the store it was
    given. *)
Theorem filter_pass_through (relationships : store) individual_id filter_year :
  individual_id = "" ∨ individual_id ∉ dom relationships →
  filter_family relationships individual_id filter_year = Ok relationships.
Proof. apply filter_family_pass. Qed.

Lemma filter_pass_through_witness :
  filter_family scenario_store "" (Some "1999") = Ok scenario_store
  ∧ filter_family scenario_store "B9" None = Ok scenario_store.
Proof.
  split.
  - apply (filter_pass_through scenario_store "" (Some "1999")).
    left. reflexivity.
  - apply (filter_pass_through scenario_store "B9" None).
    right. compute_done.
Defined.

(** C4, as stated, fails when the focal identifier is the empty string and
    is a key of the store: the filter passes the whole store through, with
    an individual that is no relative of the focal one. *)
Lemma filter_closure_counterexample :
  ¬ (∀ (relationships : store) F focal,
       relationships !! F = Some focal →
       ∃ family : store,
         filter_family relationships F None = Ok family
         ∧ ∀ k, k ∈ dom family
                ↔ k = F
                  ∨ (k = father_id focal ∧ k ∈ dom relationships ∧ k ≠ "0")
                  ∨ (k = mother_id focal ∧ k ∈ dom relationships ∧ k ≠ "0")
                  ∨ k ∈ get_mates relationships F
                  ∨ ∃ info, relationships !! k = Some info
                            ∧ (father_id info = F ∨ mother_id info = F
                               ∨ father_id info ∈ get_mates relationships F
                               ∨ mother_id info ∈ get_mates relationships F)).
Proof.
  intros Hclaim.
  destruct (Hclaim unnamed_store "" (mk_record "0" "0" "1" "N/A" "N/A" "N/A"))
    as (family & Hrun & Hdom); [vm_compute; reflexivity|].
  rewrite filter_family_pass in Hrun by (by left).
  injection Hrun as <-.
  assert ("X" ∈ dom unnamed_store) as HX by compute_done.
  apply Hdom in HX.
  destruct HX as [HX|[[HX _]|[[HX _]|[HX|(info & Hinfo & HX)]]]];
    [discriminate HX|discriminate HX|discriminate HX| |].
  - revert HX. compute_done.
  - assert (info = mk_record "0" "0" "2" "N/A" "2001" "N/A") as ->
      by (revert Hinfo; vm_compute; congruence).
    simpl in HX.
    destruct HX as [HX|[HX|[HX|HX]]];
      [discriminate HX|discriminate HX| |]; revert HX; compute_done.
Qed.

(** C4, amended.  For a focal id [F] that is a key of the store and is not
    the empty string, filtering with no year filter returns a store whose
    keys are exactly: [F]; the father and the mother [F]'s record names,
    each when it is a key of the store and not ["0"]; the mates of [F]; and
    every id whose record names [F] or a mate of [F] as father or mother.
    Each of these keys maps to the record it has in the input. *)
Theorem filter_closure (relationships : store) F focal :
  F ≠ "" →
  relationships !! F = Some focal →
  ∃ family : store,
    filter_family relationships F None = Ok family
    ∧ (∀ k, k ∈ dom family
            ↔ k = F
              ∨ (k = father_id focal ∧ k ∈ dom relationships ∧ k ≠ "0")
              ∨ (k = mother_id focal ∧ k ∈ dom relationships ∧ k ≠ "0")
              ∨ k ∈ get_mates relationships F
              ∨ ∃ info, relationships !! k = Some info
                        ∧ (father_id info = F ∨ mother_id info = F
                           ∨ father_id info ∈ get_mates relationships F
                           ∨ mother_id info ∈ get_mates relationships F))
    ∧ (∀ k, k ∈ dom family → family !! k = relationships !! k).
Proof.
  intros Hne Hfocal.
  destruct (filter_family_spec relationships F None focal Hne Hfocal)
    as (family & Hrun & Hsub & Hdom).
  exists family. split; [done|]. split.
  - intros k. rewrite Hdom. unfold in_family, valid_parent, is_child, year_ok.
    split.
    + intros [?|[?|[?|[?|(info & ? & ? & _)]]]]; auto 6.
      do 4 right. by exists info.
    + intros [?|[?|[?|[?|(info & ? & ?)]]]]; auto 6.
      do 4 right. exists info. auto.
  - intros k Hk. apply elem_of_dom in Hk as [r Hr]. rewrite Hr.
    symmetry. by eapply lookup_weaken.
Qed.

Lemma filter_closure_witness :
  ∃ family : store,
    filter_family scenario_store "A1" None = Ok family
    ∧ (∀ k, k ∈ dom family
            ↔ k = "A1"
              ∨ (k = "0" ∧ k ∈ dom scenario_store ∧ k ≠ "0")
              ∨ (k = "0" ∧ k ∈ dom scenario_store ∧ k ≠ "0")
              ∨ k ∈ get_mates scenario_store "A1"
              ∨ ∃ info, scenario_store !! k = Some info
                        ∧ (father_id info = "A1" ∨ mother_id info = "A1"
                           ∨ father_id info ∈ get_mates scenario_store "A1"
                           ∨ mother_id info ∈ get_mates scenario_store "A1"))
    ∧ (∀ k, k ∈ dom family → family !! k = scenario_store !! k).
Proof.
  apply (filter_closure scenario_store "A1"
           (mk_record "0" "0" "1" "N/A" "N/A" "N/A")).
  - discriminate.
  - vm_compute; reflexivity.
Defined.

(** ** Year filter *)

(** C2, as stated, fails in two ways.  A child that is also a mate of the
    focal individual (or one of its parents, or the focal individual
    itself) is kept whatever its hatch year; and when the focal identifier
    is the empty string the whole store is passed through. *)
Lemma year_filter_counterexample :
  ¬ (∀ (relationships : store) F focal y k info,
       F ≠ "" →
       relationships !! F = Some focal →
       relationships !! k = Some info →
       is_child F (get_mates relationships F) info →
       ∃ family : store,
         filter_family relationships F (Some y) = Ok family
         ∧ (k ∈ dom family ↔ hatch_year info = y))
  ∧ ¬ (∀ (relationships : store) F focal y k info,
         relationships !! F = Some focal →
         relationships !! k = Some info →
         is_child F (get_mates relationships F) info →
         k ≠ F → k ∉ get_mates relationships F →
         ¬ (k = father_id focal ∧ k ≠ "0") →
         ¬ (k = mother_id focal ∧ k ≠ "0") →
         ∃ family : store,
           filter_family relationships F (Some y) = Ok family
           ∧ (k ∈ dom family ↔ hatch_year info = y)).
Proof.
  split.
  - intros Hclaim.
    destruct (Hclaim inbred_store "F"
                (mk_record "0" "0" "1" "N/A" "N/A" "N/A") "2000" "M"
                (mk_record "F" "M2" "2" "N/A" "1999" "N/A"))
      as (family & Hrun & Hiff);
      [discriminate|vm_compute; reflexivity|vm_compute; reflexivity
      |by left|].
    assert (family = inbred_store) as ->
      by (revert Hrun; vm_compute; congruence).
    assert ("M" ∈ dom inbred_store) as HM by compute_done.
    apply Hiff in HM. discriminate HM.
  - intros Hclaim.
    destruct (Hclaim
                (<["" := mk_record "0" "0" "1" "N/A" "N/A" "N/A"]>
                   {["X" := mk_record "" "0" "2" "N/A" "2001" "N/A"]})
                "" (mk_record "0" "0" "1" "N/A" "N/A" "N/A") "2000" "X"
                (mk_record "" "0" "2" "N/A" "2001" "N/A"))
      as (family & Hrun & Hiff);
      [vm_compute; reflexivity|vm_compute; reflexivity|by left
      |discriminate|compute_done|by intros [? _]|by intros [? _]|].
    rewrite filter_family_pass in Hrun by (by left).
    injection Hrun as <-.
    assert ("X" ∈ dom (<["" := mk_record "0" "0" "1" "N/A" "N/A" "N/A"]>
                   ({["X" := mk_record "" "0" "2" "N/A" "2001" "N/A"]} : store)))
      as HX by compute_done.
    apply Hiff in HX. discriminate HX.
Qed.

(** C2, amended.  Let the focal id [F] be a key of the store and not the
    empty string, let the year filter be the string [y], and let [k] be a
    child: an individual whose record names [F] or a mate of [F] as father
    or mother.  If the hatch year of [k] string-equals [y] then [k] is in
    the result; and when [k] is not [F] itself, not a mate of [F] and not a
    parent that [F]'s record names (other than the sentinel ["0"]), [k] is
    in the result if and only if its hatch year string-equals [y].  This
    holds for every [y], the sentinel ["N/A"] included. *)
Theorem year_filter_exact (relationships : store) F focal y k info :
  F ≠ "" →
  relationships !! F = Some focal →
  relationships !! k = Some info →
  is_child F (get_mates relationships F) info →
  ∃ family : store,
    filter_family relationships F (Some y) = Ok family
    ∧ (hatch_year info = y → k ∈ dom family)
    ∧ (k ≠ F → k ∉ get_mates relationships F →
       ¬ (k = father_id focal ∧ k ≠ "0") →
       ¬ (k = mother_id focal ∧ k ≠ "0") →
       (k ∈ dom family ↔ hatch_year info = y)).
Proof.
  intros Hne Hfocal Hk Hchild.
  destruct (filter_family_spec relationships F (Some y) focal Hne Hfocal)
    as (family & Hrun & Hsub & Hdom).
  exists family. split; [done|].
  assert (hatch_year info = y → k ∈ dom family) as Hin.
  { intros Hy. apply Hdom. do 4 right. exists info.
    split; [done|]. split; [done|]. right. by rewrite Hy. }
  split; [done|].
  intros HkF Hkm Hkp Hkq. split; [|done].
  intros Hkin. apply Hdom in Hkin.
  destruct Hkin as [?|[[? [_ ?]]|[[? [_ ?]]|[?|(info' & Hk' & _ & Hyear)]]]];
    [done|by destruct Hkp|by destruct Hkq|done|].
  rewrite Hk in Hk'. injection Hk' as <-.
  destruct Hyear as [?|Hyear]; [done|]. by injection Hyear.
Qed.

Lemma year_filter_exact_witness :
  ∃ family : store,
    filter_family scenario_store "A1" (Some "N/A") = Ok family
    ∧ ("1999" = "N/A" → "A3" ∈ dom family)
    ∧ ("A3" ≠ "A1" → "A3" ∉ get_mates scenario_store "A1" →
       ¬ ("A3" = "0" ∧ "A3" ≠ "0") →
       ¬ ("A3" = "0" ∧ "A3" ≠ "0") →
       ("A3" ∈ dom family ↔ "1999" = "N/A")).
Proof.
  apply (year_filter_exact scenario_store "A1"
           (mk_record "0" "0" "1" "N/A" "N/A" "N/A") "N/A" "A3"
           (mk_record "A1" "A2" "1" "B123" "1999" "N/A")).
  - discriminate.
  - vm_compute; reflexivity.
  - vm_compute; reflexivity.
  - left. reflexivity.
Defined.

(** ** The parser *)

(** C1.  The claim that parsing never raises fails on the code: the guard
    drops a line with fewer than seven fields, the comment above it expects
    "at least 7 columns", and the unpacking that follows takes exactly
    seven, so a line with an eighth field raises [ValueError]. *)
Theorem parse_raises_on_eighth_field :
  parse_ped_file "A1,0,0,1,0,,0,extra" = Raise ValueError.
Proof. vm_compute. reflexivity. Qed.

(** What the loop body does, case by case. *)
Lemma parse_line_cases seen_lines (relationships : store) line :
  let t := Py.strip line in
  parse_line (seen_lines, relationships) line =
    if decide (t = "") then Ok (seen_lines, relationships)
    else if decide (t ∈ seen_lines) then Ok (seen_lines, relationships)
    else match Py.split comma t with
         | [i; f; m; s; u; h; a] =>
             Ok (seen_lines ∪ {[t]},
                 <[i := {| father_id := f; mother_id := m; sex := s;
                           usgs_band_id := if decide (u = "0") then "N/A" else u;
                           hatch_year := if decide (h = "") then "N/A" else h;
                           aux_id := if decide (a = "0") then "N/A" else a |}]>
                   relationships)
         | _ :: _ :: _ :: _ :: _ :: _ :: _ :: _ :: _ => Raise ValueError
         | _ => Ok (seen_lines ∪ {[t]}, relationships)
         end.
Proof.
  simpl. unfold parse_line.
  repeat case_decide; try done;
    destruct (Py.split comma (Py.strip line))
      as [|? [|? [|? [|? [|? [|? [|? [|? ?]]]]]]]]; try done;
    simpl; repeat case_decide; done.
Qed.


(** The set of seen lines only grows, and it holds the text of every line
    that was not blank. *)
Lemma parse_line_seen seen_lines (relationships : store) line seen' rel' :
  parse_line (seen_lines, relationships) line = Ok (seen', rel') →
  seen_lines ⊆ seen'
  ∧ (Py.strip line = "" ∨ Py.strip line ∈ seen').
Proof.
  rewrite parse_line_cases. simpl.
  repeat case_decide.
  - intros [= <- <-]. auto.
  - intros [= <- <-]. auto.
  - destruct (Py.split comma (Py.strip line))
      as [|? [|? [|? [|? [|? [|? [|? [|? ?]]]]]]]];
      intros [= <- <-]; split; set_solver.
Qed.

(** A line whose text is blank or was seen leaves the state as it is. *)
Lemma parse_line_skip seen_lines (relationships : store) line :
  Py.strip line = "" ∨ Py.strip line ∈ seen_lines →
  parse_line (seen_lines, relationships) line = Ok (seen_lines, relationships).
Proof.
  intros Hskip. rewrite parse_line_cases. simpl.
  repeat case_decide; try done. by destruct Hskip.
Qed.

Lemma for_each_app {A S} (body : S → A → result S) xs ys s :
  for_each body (xs ++ ys) s = for_each body xs s ≫= for_each body ys.
Proof.
  revert s. induction xs as [|x xs IH]; intros s; simpl; [done|].
  destruct (body s x) as [s'|e]; [|done]. rewrite !bind_Ok. apply IH.
Qed.

Lemma parse_lines_seen lines : ∀ seen_lines (relationships : store) seen' rel',
  for_each parse_line lines (seen_lines, relationships) = Ok (seen', rel') →
  seen_lines ⊆ seen'
  ∧ ∀ line, line ∈ lines → Py.strip line = "" ∨ Py.strip line ∈ seen'.
Proof.
  induction lines as [|l lines IH]; intros seen_lines relationships seen' rel';
    cbn [for_each].
  - intros [= <- <-]. split; [done|]. intros line Hin.
    by apply elem_of_nil in Hin.
  - destruct (parse_line (seen_lines, relationships) l) as [[seen1 rel1]|e] eqn:Hl;
      [|by rewrite bind_Raise].
    rewrite bind_Ok. intros Hrest.
    apply parse_line_seen in Hl as [Hsub1 Hl].
    apply IH in Hrest as [Hsub2 Hrest].
    split; [set_solver|]. intros line Hin.
    apply elem_of_cons in Hin as [->|Hin]; [|by apply Hrest].
    destruct Hl as [?|?]; [by left|right; set_solver].
Qed.

(** *** Lines and text *)

Lemma split_nonempty sep s : Py.split sep s ≠ [].
Proof.
  destruct s as [|c s]; simpl; [done|].
  destruct (Ascii.eqb c sep); [done|]. by destruct (Py.split sep s).
Qed.

Lemma split_sep_free sep s : char_in sep s = false → Py.split sep s = [s].
Proof.
  induction s as [|c s IH]; simpl; [done|].
  intros [Hc Hs]%orb_false_elim. rewrite Hc, (IH Hs). done.
Qed.

Lemma split_app_sep sep x rest :
  char_in sep x = false →
  Py.split sep (x +:+ String sep rest) = x :: Py.split sep rest.
Proof.
  induction x as [|c x IH]; simpl.
  - intros _. by rewrite Ascii.eqb_refl.
  - intros [Hc Hx]%orb_false_elim. rewrite Hc, (IH Hx). done.
Qed.

(** Splitting the text of a list of lines gives the lines back. *)
Lemma split_unlines ls :
  ls ≠ [] → Forall (λ l, char_in newline l = false) ls →
  Py.split newline (unlines ls) = ls.
Proof.
  induction ls as [|x ls IH]; [done|]. intros _ Hfree.
  apply Forall_cons in Hfree as [Hx Hls].
  destruct ls as [|y ls].
  - simpl. by apply split_sep_free.
  - change (unlines (x :: y :: ls))
      with (x +:+ String newline (unlines (y :: ls))).
    rewrite split_app_sep by done. f_equal. by apply IH.
Qed.

(** *** Duplicate lines *)

Lemma parse_lines_dedup l1 x l2 y l3 st :
  Py.strip x = Py.strip y →
  for_each parse_line (l1 ++ x :: l2 ++ y :: l3) st
  = for_each parse_line (l1 ++ x :: l2 ++ l3) st.
Proof.
  intros Hxy.
  assert (∀ t, l1 ++ x :: l2 ++ t = (l1 ++ x :: l2) ++ t)%list as Hassoc
    by (intros t; by rewrite <- app_assoc).
  rewrite (Hassoc (y :: l3)), (Hassoc l3).
  rewrite !(for_each_app _ (l1 ++ x :: l2)).
  destruct st as [seen_lines relationships].
  destruct (for_each parse_line (l1 ++ x :: l2) (seen_lines, relationships))
    as [[seen' rel']|e] eqn:Hpre; [|by rewrite !bind_Raise].
  rewrite !bind_Ok. cbn [for_each].
  apply parse_lines_seen in Hpre as [_ Hseen].
  rewrite parse_line_skip, bind_Ok; [done|].
  rewrite <- Hxy. apply Hseen. apply elem_of_app. right. left.
Qed.

(** C7.  Take an input in which the trimmed text of a line [x] occurs
    again in a later line [y].  Parsing it gives what parsing the input
    without [y] gives: the same store, or the same exception. *)
Theorem dedup_idempotent l1 x l2 y l3 :
  Forall (λ l, char_in newline l = false) (l1 ++ x :: l2 ++ y :: l3) →
  Py.strip x = Py.strip y →
  parse_ped_file (unlines (l1 ++ x :: l2 ++ y :: l3))
  = parse_ped_file (unlines (l1 ++ x :: l2 ++ l3)).
Proof.
  intros Hfree Hxy. unfold parse_ped_file, parse_lines.
  rewrite !split_unlines.
  - by rewrite parse_lines_dedup.
  - by destruct l1.
  - rewrite !Forall_app, !Forall_cons, Forall_app, Forall_cons in Hfree.
    rewrite !Forall_app, !Forall_cons, Forall_app. tauto.
  - by destruct l1.
  - done.
Qed.

Lemma dedup_idempotent_witness :
  parse_ped_file
    (unlines ([] ++ "A1,0,0,1,0,,0" :: ["A2,A1,0,2,0,,0"]
                 ++ "  A1,0,0,1,0,,0 " :: ["A3,A1,A2,1,B123,1999,0"]))
  = parse_ped_file
      (unlines ([] ++ "A1,0,0,1,0,,0" :: ["A2,A1,0,2,0,,0"]
                   ++ ["A3,A1,A2,1,B123,1999,0"])).
Proof.
  apply (dedup_idempotent [] "A1,0,0,1,0,,0" ["A2,A1,0,2,0,,0"]
           "  A1,0,0,1,0,,0 " ["A3,A1,A2,1,B123,1999,0"]).
  - repeat constructor.
  - vm_compute. reflexivity.
Defined.

(** *** Sentinel normalization *)

Section LastRecord.

(** [t] is the trimmed text of a line of seven fields with id [i]. *)
Variables (t i f m s u h a : string).
Hypothesis Hfields : Py.split comma t = [i; f; m; s; u; h; a].

Lemma parse_line_keeps_record seen_lines (relationships : store) l seen' rel' :
  parse_line (seen_lines, relationships) l = Ok (seen', rel') →
  only_line_for_id t i l →
  (t ∈ seen_lines → relationships !! i = Some (normalized f m s u h a)) →
  t ∈ seen' → rel' !! i = Some (normalized f m s u h a).
Proof using Hfields.
  rewrite parse_line_cases. cbv zeta. intros Hrun Honly Hinv.
  case_decide as Hblank; [by injection Hrun as <- <-|].
  case_decide as Hseen; [by injection Hrun as <- <-|].
  assert (∀ rel1 : store,
            Py.split comma (Py.strip l) ≠ [i; f; m; s; u; h; a] →
            rel1 !! i = relationships !! i →
            t ∈ seen_lines ∪ {[Py.strip l]} →
            rel1 !! i = Some (normalized f m s u h a)) as Hother.
  { intros rel1 Hne Hsame [Hin|Hin%elem_of_singleton]%elem_of_union.
    - rewrite Hsame. by apply Hinv.
    - destruct Hne. rewrite <- Hin. exact Hfields. }
  destruct (Py.split comma (Py.strip l))
    as [|i' [|f' [|m' [|s' [|u' [|h' [|a' [|? ?]]]]]]]] eqn:Hsplit;
    try discriminate Hrun;
    injection Hrun as <- <-; try (by apply Hother).
  destruct (decide (i' = i)) as [->|Hi].
  - intros _. rewrite (Honly _ Hsplit eq_refl) in Hsplit.
    rewrite Hfields in Hsplit. injection Hsplit as <- <- <- <- <- <-.
    by rewrite lookup_insert_eq.
  - apply Hother; [congruence|]. by rewrite lookup_insert_ne.
Qed.

Lemma parse_lines_keep_record lines :
  ∀ seen_lines (relationships : store) seen' rel',
    for_each parse_line lines (seen_lines, relationships) = Ok (seen', rel') →
    (∀ l, l ∈ lines → only_line_for_id t i l) →
    (t ∈ seen_lines → relationships !! i = Some (normalized f m s u h a)) →
    t ∈ seen' → rel' !! i = Some (normalized f m s u h a).
Proof using Hfields.
  induction lines as [|l lines IH];
    intros seen_lines relationships seen' rel'; cbn [for_each].
  - by intros [= <- <-].
  - destruct (parse_line (seen_lines, relationships) l)
      as [[seen1 rel1]|e] eqn:Hl; [|by rewrite bind_Raise].
    rewrite bind_Ok. intros Hrest Honly Hinv.
    apply (IH _ _ _ _ Hrest).
    + intros l' Hl'. apply Honly. by right.
    + apply (parse_line_keeps_record _ _ _ _ _ Hl); [|done].
      apply Honly. left.
Qed.

End LastRecord.

(** C6.  A line whose trimmed text has exactly seven fields and was not
    seen before stores, under its id, a record with the father, mother and
    sex fields verbatim, with [usgs_band_id] and [aux_id] ["N/A"] when the
    raw value is ["0"] and the raw value otherwise, and with [hatch_year]
    ["N/A"] when the raw value is empty and the raw value otherwise, so a
    raw ["0"] stays ["0"].  When parsing succeeds, and no line of seven
    fields with another text has the same id, that record is the one the
    result has for the id. *)
Theorem sentinel_normalization :
  (∀ seen_lines (relationships : store) line i f m s u h a,
     Py.strip line ∉ seen_lines →
     Py.split comma (Py.strip line) = [i; f; m; s; u; h; a] →
     parse_line (seen_lines, relationships) line
     = Ok (seen_lines ∪ {[Py.strip line]},
           <[i := {| father_id := f;
                     mother_id := m;
                     sex := s;
                     usgs_band_id := if decide (u = "0") then "N/A" else u;
                     hatch_year := if decide (h = "") then "N/A" else h;
                     aux_id := if decide (a = "0") then "N/A" else a |}]>
             relationships))
  ∧ (∀ file_contents (relationships : store) line i f m s u h a,
       parse_ped_file file_contents = Ok relationships →
       line ∈ Py.split newline file_contents →
       Py.split comma (Py.strip line) = [i; f; m; s; u; h; a] →
       (∀ l, l ∈ Py.split newline file_contents →
             only_line_for_id (Py.strip line) i l) →
       relationships !! i
       = Some {| father_id := f;
                 mother_id := m;
                 sex := s;
                 usgs_band_id := if decide (u = "0") then "N/A" else u;
                 hatch_year := if decide (h = "") then "N/A" else h;
                 aux_id := if decide (a = "0") then "N/A" else a |}).
Proof.
  split.
  - intros seen_lines relationships line i f m s u h a Hnew Hfields.
    rewrite parse_line_cases. cbv zeta.
    rewrite decide_False
      by (intros Hblank; rewrite Hblank in Hfields; discriminate Hfields).
    rewrite decide_False by done. by rewrite Hfields.
  - unfold parse_ped_file, parse_lines.
    intros file_contents relationships line i f m s u h a
      Hrun Hline Hfields Honly.
    destruct (for_each parse_line (Py.split newline file_contents) (∅, ∅))
      as [[seen' rel']|e] eqn:Hloop; [|by rewrite bind_Raise in Hrun].
    rewrite bind_Ok in Hrun. injection Hrun as <-. simpl.
    apply (parse_lines_keep_record _ _ _ _ _ _ _ _ Hfields _ _ _ _ _ Hloop);
      [done|set_solver|].
    apply parse_lines_seen in Hloop as [_ Hseen].
    destruct (Hseen line Hline) as [Hblank|?]; [|done].
    rewrite Hblank in Hfields. discriminate Hfields.
Qed.

Lemma sentinel_normalization_witness :
  parse_line (∅, ∅) " A1,0,0,1,0,0,0"
  = Ok (∅ ∪ {["A1,0,0,1,0,0,0"]},
        <["A1" := mk_record "0" "0" "1" "N/A" "0" "N/A"]> ∅)
  ∧ (<["A2" := mk_record "0" "0" "2" "B7" "N/A" "X"]>
       {["A1" := mk_record "0" "0" "1" "N/A" "0" "N/A"]} : store) !! "A1"
    = Some (mk_record "0" "0" "1" "N/A" "0" "N/A").
Proof.
  split.
  - apply (proj1 sentinel_normalization ∅ ∅ " A1,0,0,1,0,0,0"
             "A1" "0" "0" "1" "0" "0" "0").
    + apply not_elem_of_empty.
    + vm_compute. reflexivity.
  - apply (proj2 sentinel_normalization two_lines _ "A1,0,0,1,0,0,0"
             "A1" "0" "0" "1" "0" "0" "0").
    + vm_compute. reflexivity.
    + left.
    + vm_compute. reflexivity.
    + intros l Hl rest Hsplit Hlen.
      apply list_elem_of_In in Hl. simpl in Hl.
      destruct Hl as [<-|[<-|[]]]; [reflexivity|].
      vm_compute in Hsplit. discriminate Hsplit.
Defined.

(** ** The renderer *)

Lemma create_node_Ok (relationships : store) c iid :
  ∃ c', create_node relationships c iid = Ok c'.
Proof.
  unfold create_node. case_decide as Hguard; [|by eexists].
  destruct Hguard as [_ [info Hinfo]%elem_of_dom].
  rewrite (getitem_Some _ _ _ Hinfo), bind_Ok.
  repeat case_decide; by eexists.
Qed.

Lemma for_each_Ok {A S} (body : S → A → result S) xs :
  (∀ s x, ∃ s', body s x = Ok s') → ∀ s, ∃ s', for_each body xs s = Ok s'.
Proof.
  intros Hbody. induction xs as [|x xs IH]; intros s; cbn [for_each].
  - by eexists.
  - destruct (Hbody s x) as [s' ->]. rewrite bind_Ok. apply IH.
Qed.

(** Run one [create_node] at the head of the goal. *)
Ltac step_create_node :=
  match goal with
  | |- context [create_node ?r ?c ?i ≫= _] =>
      let c' := fresh "c" in
      destruct (create_node_Ok r c i) as [c' ->]; rewrite bind_Ok
  end.

Lemma draw_child_Ok (relationships : store) FOCUS_ID mates c item :
  ∃ c', draw_child relationships FOCUS_ID mates c item = Ok c'.
Proof.
  destruct item as [cid cinfo]. unfold draw_child.
  case_decide; [|by eexists]. step_create_node. by eexists.
Qed.

Lemma focused_Some (relationships : store) FOCUS_ID f :
  focused relationships FOCUS_ID = Some f → f ∈ dom relationships.
Proof.
  unfold focused. destruct FOCUS_ID as [f'|]; [|done].
  case_decide as Hf; [|done]. intros [= <-]. by destruct Hf.
Qed.

(** Building the graph never raises. *)
Lemma build_graph_Ok (relationships : store) FOCUS_ID :
  ∃ d, build_graph relationships FOCUS_ID = Ok d.
Proof.
  unfold build_graph.
  destruct (focused relationships FOCUS_ID) as [f|] eqn:Hfocus.
  - apply focused_Some in Hfocus. apply elem_of_dom in Hfocus as [focal Hfocal].
    rewrite !(getitem_Some _ _ _ Hfocal), !bind_Ok.
    match goal with
    | |- context [(if ?b then ?x else ?y) ≫= _] =>
        assert (∃ c', (if b then x else y) = Ok c') as [c1 ->]
    end.
    { case_decide.
      - do 2 step_create_node. by eexists.
      - case_decide; case_decide;
          repeat first [step_create_node | rewrite bind_Ok]; by eexists. }
    rewrite bind_Ok. step_create_node.
    match goal with
    | |- context [for_each (create_node ?r) ?xs ?c ≫= _] =>
        destruct (for_each_Ok (create_node r) xs (create_node_Ok r) c)
          as [c2 ->]
    end.
    rewrite bind_Ok.
    match goal with
    | |- context [for_each (draw_child ?r ?f ?m) ?xs ?c ≫= _] =>
        destruct (for_each_Ok (draw_child r f m) xs (draw_child_Ok r f m) c)
          as [c3 ->]
    end.
    rewrite bind_Ok. by eexists.
  - match goal with
    | |- context [for_each (create_node ?r) ?xs ?c ≫= _] =>
        destruct (for_each_Ok (create_node r) xs (create_node_Ok r) c)
          as [c1 ->]
    end.
    rewrite !bind_Ok. by eexists.
Qed.

Example render_focused :
  build_graph tiny_store (Some "P") = Ok tiny_graph.
Proof. vm_compute. reflexivity. Qed.

Example render_engine_failure :
  generate_graph (λ _ _, inr "failed to execute dot") tiny_store (Some "P")
  = ([Pipe tiny_graph "png";
      StError "Error generating PNG: failed to execute dot"], Ok None).
Proof. vm_compute. reflexivity. Qed.

(** C8.  On an empty store [generate_graph] returns [None] and does
    nothing else: it neither calls the layout engine nor reports an error.
    On a store that is not empty it never raises: it builds the graph,
    calls the engine once, and returns the image, or, when the engine
    raises, reports the error and returns [None]. *)
Theorem render_total (engine : Digraph → string → list Byte.byte + string) :
  (∀ FOCUS_ID, generate_graph engine ∅ FOCUS_ID = ([], Ok None))
  ∧ (∀ (relationships : store) FOCUS_ID,
       relationships ≠ ∅ →
       ∃ d, build_graph relationships FOCUS_ID = Ok d
            ∧ generate_graph engine relationships FOCUS_ID
              = match engine d "png" with
                | inl png => ([Pipe d "png"], Ok (Some png))
                | inr error =>
                    ([Pipe d "png";
                      StError ("Error generating PNG: " +:+ error)],
                     Ok None)
                end).
Proof.
  split.
  - intros FOCUS_ID. unfold generate_graph. by rewrite decide_True.
  - intros relationships FOCUS_ID Hne.
    destruct (build_graph_Ok relationships FOCUS_ID) as [d Hd].
    exists d. split; [done|].
    unfold generate_graph. rewrite decide_False by done. by rewrite Hd.
Qed.

(** ** The filter on the heap *)

Lemma filter_family_subseteq (relationships : store) individual_id filter_year :
  ∃ family : store,
    filter_family relationships individual_id filter_year = Ok family
    ∧ family ⊆ relationships.
Proof.
  destruct (decide (individual_id = "" ∨ individual_id ∉ dom relationships))
    as [Hpass|Hfocus].
  - exists relationships. split; [by apply filter_family_pass|done].
  - assert (individual_id ≠ "") as Hne by (intros ?; apply Hfocus; by left).
    assert (individual_id ∈ dom relationships) as Hin
      by (apply dec_stable; intros ?; apply Hfocus; by right).
    apply elem_of_dom in Hin as [focal Hfocal].
    destruct (filter_family_spec relationships individual_id filter_year
                focal Hne Hfocal) as (family & Hrun & Hsub & _).
    by exists family.
Qed.

Lemma if_bool_decide_and3 {X} (P Q R : Prop)
  `{!Decision P, !Decision Q, !Decision R} (a b : X) :
  (if bool_decide P && bool_decide Q && bool_decide R then a else b)
  = (if decide (P ∧ Q ∧ R) then a else b).
Proof. repeat case_bool_decide; case_decide; simpl; tauto || done. Qed.

Section Heap.

(** The store [rel] lives at [l]; [h'] is any heap that has it there. *)
Variables (l : Obj.loc) (rel : store).

Lemma holds_total h' : holds l rel h' → h' !!! l = rel.
Proof. intros Hh. by apply lookup_total_correct. Qed.

Lemma bind_run {A B} (m : Obj.M A) (k : A → Obj.M B) h1 a h2 :
  m h1 = (Ok a, h2) → Obj.bind m k h1 = k a h2.
Proof. unfold Obj.bind. by intros ->. Qed.

Lemma contains_run h' k :
  holds l rel h' → Obj.contains l k h' = (Ok (bool_decide (k ∈ dom rel)), h').
Proof. intros Hh. unfold Obj.contains. by rewrite (holds_total _ Hh). Qed.

Lemma getitem_run h' k v :
  holds l rel h' → rel !! k = Some v → Obj.getitem l k h' = (Ok v, h').
Proof.
  intros Hh Hk. unfold Obj.getitem. by rewrite (holds_total _ Hh), Hk.
Qed.

Lemma items_run h' :
  holds l rel h' → Obj.items l h' = (Ok (map_to_list rel), h').
Proof. intros Hh. unfold Obj.items. by rewrite (holds_total _ Hh). Qed.

(** [get_mates] reads the store and writes nothing. *)
Lemma get_mates_run h' individual_id :
  holds l rel h' →
  Obj.get_mates l individual_id h' = (Ok (get_mates rel individual_id), h').
Proof.
  intros Hh. unfold Obj.get_mates, get_mates.
  rewrite (bind_run _ _ _ _ _ (contains_run _ _ Hh)).
  case_bool_decide as Hid; simpl.
  - rewrite decide_False by (by intros ?).
    rewrite (bind_run _ _ _ _ _ (items_run _ Hh)).
    generalize (∅ : gset string).
    induction (map_to_list rel) as [|[iid info] its IH]; intros mates;
      cbn [Obj.for_each foldl]; [done|].
    erewrite bind_run; [apply IH|].
    rewrite (bind_run _ _ _ _ _ (contains_run _ _ Hh)).
    rewrite (bind_run _ _ _ _ _ (contains_run _ _ Hh)).
    unfold Obj.ret, mates_step. by rewrite !if_bool_decide_and3.
  - by rewrite decide_True.
Qed.

End Heap.

Section Frame.

(** A heap [h] with the store [rel] at [l]; [fam] is the location the
    filter allocates for its result. *)
Variables (h : Obj.heap) (l : Obj.loc) (rel : store).
Hypothesis Hl : h !! l = Some rel.

Let fam : Obj.loc := fresh (dom h).

(** The heap while the filter runs: [h] and, at [fam], the family so
    far. *)
Let during (family : store) : Obj.heap := <[fam := family]> h.

Lemma fam_fresh : h !! fam = None.
Proof. apply not_elem_of_dom. apply is_fresh. Qed.

Lemma during_holds family : holds l rel (during family).
Proof using Hl.
  unfold holds, during. rewrite lookup_insert_ne; [done|].
  intros Heq. pose proof fam_fresh as Hfresh. rewrite Heq in Hfresh.
  by rewrite Hl in Hfresh.
Qed.

Lemma setitem_run family k v :
  Obj.setitem fam k v (during family) = (Ok (), during (<[k := v]> family)).
Proof.
  unfold Obj.setitem, during.
  by rewrite lookup_total_insert_eq, insert_insert_eq.
Qed.

Lemma new_dict_run : Obj.new_dict h = (Ok fam, during ∅).
Proof. reflexivity. Qed.

Lemma add_mates_run (ms : list string) : ∀ family,
  (∀ x, x ∈ ms → x ∈ dom rel) →
  ∃ family' : store,
    for_each (family_add_mate rel) ms family = Ok family'
    ∧ Obj.for_each (λ _ mate_id,
          Obj.bind (Obj.getitem l mate_id)
            (λ mate, Obj.setitem fam mate_id mate)) ms () (during family)
      = (Ok (), during family').
Proof using Hl.
  induction ms as [|m ms IH]; intros family Hms;
    cbn [for_each Obj.for_each].
  - by exists family.
  - assert (m ∈ dom rel) as Hm by (apply Hms; left).
    apply elem_of_dom in Hm as [v Hv].
    rewrite (family_add_mate_Some _ _ _ _ Hv), bind_Ok.
    destruct (IH (<[m := v]> family)) as (family' & Hpure & Hobj).
    { intros x Hx. apply Hms. by right. }
    exists family'. split; [done|].
    erewrite bind_run; [exact Hobj|].
    rewrite (bind_run _ _ _ _ _ (getitem_run _ _ _ _ _ (during_holds _) Hv)).
    apply setitem_run.
Qed.

Lemma add_children_run individual_id mates filter_year
  (its : list (string * record)) : ∀ family,
  Obj.for_each (λ _ '(iid, info),
      if decide (father_id info = individual_id
                 ∨ mother_id info = individual_id
                 ∨ father_id info ∈ mates ∨ mother_id info ∈ mates)
      then
        if decide (filter_year = None ∨ filter_year = Some (hatch_year info))
        then Obj.setitem fam iid info
        else Obj.ret ()
      else Obj.ret ()) its () (during family)
  = (Ok (),
     during (foldl (family_add_child individual_id mates filter_year)
               family its)).
Proof.
  induction its as [|[iid info] its IH]; intros family;
    cbn [Obj.for_each foldl]; [done|].
  erewrite bind_run; [apply IH|].
  unfold family_add_child. repeat case_decide; try done.
  apply setitem_run.
Qed.

(** The filter on the heap does what [filter_family] does on the value
    of the store: it returns [l] itself when it passes the store
    through, and otherwise a new dictionary at [fam], with the rest of
    the heap as it was. *)
Lemma filter_family_run individual_id filter_year :
  ∃ family : store,
    filter_family rel individual_id filter_year = Ok family
    ∧ Obj.filter_family l individual_id filter_year h
      = if decide (individual_id = "" ∨ individual_id ∉ dom rel)
        then (Ok l, h)
        else (Ok fam, during family).
Proof using Hl.
  unfold Obj.filter_family, filter_family.
  rewrite (bind_run _ _ _ _ _ (contains_run l rel _ _ Hl)).
  case_decide as Hpass.
  - exists rel. split; [done|].
    destruct Hpass as [->|Hnot]; [done|].
    rewrite (bool_decide_eq_false_2 _ Hnot). simpl. by rewrite orb_true_r.
  - assert (individual_id ≠ "") as Hne by (intros ?; apply Hpass; by left).
    assert (individual_id ∈ dom rel) as Hin
      by (apply dec_stable; intros ?; apply Hpass; by right).
    rewrite (bool_decide_eq_false_2 _ Hne), (bool_decide_eq_true_2 _ Hin).
    cbn [orb negb].
    apply elem_of_dom in Hin as [focal Hfocal].
    rewrite !(getitem_Some _ _ _ Hfocal), !bind_Ok.
    rewrite (bind_run _ _ _ _ _ new_dict_run).
    rewrite (bind_run _ _ _ _ _
               (getitem_run _ _ _ _ _ (during_holds _) Hfocal)).
    rewrite (bind_run _ _ _ _ _ (setitem_run _ _ _)).
    rewrite !(bind_run _ _ _ _ _
                (getitem_run _ _ _ _ _ (during_holds _) Hfocal)).
    (* the father *)
    rewrite (bind_run _ _ _ _ _ (contains_run _ _ _ _ (during_holds _))).
    set (family0 := <[individual_id := focal]> (∅ : store)).
    assert (∃ family1 : store,
      (if decide (father_id focal ∈ dom rel ∧ father_id focal ≠ "0")
       then father ← getitem rel (father_id focal);
            Ok (<[father_id focal := father]> family0)
       else Ok family0) = Ok family1
      ∧ (if bool_decide (father_id focal ∈ dom rel)
            && bool_decide (father_id focal ≠ "0")
         then Obj.bind (Obj.getitem l (father_id focal))
                (λ father, Obj.setitem fam (father_id focal) father)
         else Obj.ret ()) (during family0) = (Ok (), during family1))
      as (family1 & -> & Hfather).
    { case_decide as Hp.
      - destruct Hp as [Hp Hp0].
        rewrite (bool_decide_eq_true_2 _ Hp), (bool_decide_eq_true_2 _ Hp0).
        apply elem_of_dom in Hp as [father Hfather].
        rewrite (getitem_Some _ _ _ Hfather), bind_Ok.
        eexists. split; [done|]. cbn [andb].
        rewrite (bind_run _ _ _ _ _
                   (getitem_run _ _ _ _ _ (during_holds _) Hfather)).
        apply setitem_run.
      - exists family0. split; [done|].
        repeat case_bool_decide; try done. by destruct Hp. }
    rewrite (bind_run _ _ _ _ _ Hfather), bind_Ok. clear Hfather.
    (* the mother *)
    rewrite (bind_run _ _ _ _ _ (contains_run _ _ _ _ (during_holds _))).
    assert (∃ family2 : store,
      (if decide (mother_id focal ∈ dom rel ∧ mother_id focal ≠ "0")
       then mother ← getitem rel (mother_id focal);
            Ok (<[mother_id focal := mother]> family1)
       else Ok family1) = Ok family2
      ∧ (if bool_decide (mother_id focal ∈ dom rel)
            && bool_decide (mother_id focal ≠ "0")
         then Obj.bind (Obj.getitem l (mother_id focal))
                (λ mother, Obj.setitem fam (mother_id focal) mother)
         else Obj.ret ()) (during family1) = (Ok (), during family2))
      as (family2 & -> & Hmother).
    { case_decide as Hp.
      - destruct Hp as [Hp Hp0].
        rewrite (bool_decide_eq_true_2 _ Hp), (bool_decide_eq_true_2 _ Hp0).
        apply elem_of_dom in Hp as [mother Hmother].
        rewrite (getitem_Some _ _ _ Hmother), bind_Ok.
        eexists. split; [done|]. cbn [andb].
        rewrite (bind_run _ _ _ _ _
                   (getitem_run _ _ _ _ _ (during_holds _) Hmother)).
        apply setitem_run.
      - exists family1. split; [done|].
        repeat case_bool_decide; try done. by destruct Hp. }
    rewrite (bind_run _ _ _ _ _ Hmother), bind_Ok. clear Hmother.
    (* the mates *)
    rewrite (bind_run _ _ _ _ _
               (get_mates_run _ _ _ individual_id (during_holds _))).
    destruct (add_mates_run (elements (get_mates rel individual_id)) family2)
      as (family3 & -> & Hmates).
    { intros x Hx. apply elem_of_elements in Hx. by eapply get_mates_dom. }
    rewrite (bind_run _ _ _ _ _ Hmates), bind_Ok.
    (* the children *)
    rewrite (bind_run _ _ _ _ _ (items_run _ _ _ (during_holds _))).
    rewrite (bind_run _ _ _ _ _ (add_children_run _ _ _ _ _)).
    eexists. split; reflexivity.
Qed.

End Frame.

(** C9.  Run [filter_family] on a heap that has the store at [l], with any
    focal identifier and any year filter.  It returns a reference [r] and
    does not raise; the store at [l] is the one that was there, and so is
    every other dictionary the heap had; and the dictionary at [r], which
    is the value [filter_family] computes, has only keys of the store,
    each with the record the store has for it. *)
Theorem filter_frame (h : Obj.heap) (l : Obj.loc) (relationships : store)
    individual_id filter_year :
  h !! l = Some relationships →
  ∃ (r : Obj.loc) (h' : Obj.heap) (family : store),
    Obj.filter_family l individual_id filter_year h = (Ok r, h')
    ∧ h' !! l = Some relationships
    ∧ (∀ l', l' ∈ dom h → h' !! l' = h !! l')
    ∧ h' !! r = Some family
    ∧ filter_family relationships individual_id filter_year = Ok family
    ∧ ∀ k v, family !! k = Some v → relationships !! k = Some v.
Proof.
  intros Hl.
  destruct (filter_family_run h l relationships Hl individual_id filter_year)
    as (family & Hpure & Hobj).
  destruct (filter_family_subseteq relationships individual_id filter_year)
    as (family' & Hpure' & Hsub).
  rewrite Hpure in Hpure'. injection Hpure' as <-.
  assert (∀ k v, family !! k = Some v → relationships !! k = Some v) as Hsame
    by (intros k v Hk; by eapply lookup_weaken).
  case_decide as Hpass.
  - rewrite (filter_family_pass _ _ _ Hpass) in Hpure. injection Hpure as <-.
    exists l, h, relationships.
    repeat split; try done. by apply filter_family_pass.
  - pose proof (fam_fresh h) as Hfresh.
    exists (fresh (dom h)), (<[fresh (dom h) := family]> h), family.
    split; [done|]. split; [|split; [|split; [|done]]].
    + rewrite lookup_insert_ne; [done|]. intros Heq.
      rewrite Heq in Hfresh. by rewrite Hl in Hfresh.
    + intros l' Hl'. rewrite lookup_insert_ne; [done|]. intros Heq.
      apply elem_of_dom in Hl' as [? Hl']. rewrite <- Heq in Hl'.
      by rewrite Hfresh in Hl'.
    + by rewrite lookup_insert_eq.
Qed.

Lemma filter_frame_witness :
  ∃ (r : Obj.loc) (h' : Obj.heap) (family : store),
    Obj.filter_family 1%positive "A1" (Some "2000")
      {[1%positive := scenario_store]} = (Ok r, h')
    ∧ h' !! 1%positive = Some scenario_store
    ∧ (∀ l', l' ∈ dom ({[1%positive := scenario_store]} : Obj.heap) →
             h' !! l' = ({[1%positive := scenario_store]} : Obj.heap) !! l')
    ∧ h' !! r = Some family
    ∧ filter_family scenario_store "A1" (Some "2000") = Ok family
    ∧ ∀ k v, family !! k = Some v → scenario_store !! k = Some v.
Proof.
  apply (filter_frame {[1%positive := scenario_store]} 1%positive
           scenario_store "A1" (Some "2000")).
  vm_compute. reflexivity.
Defined.

Example filter_on_heap :
  Obj.filter_family 1%positive "A1" (Some "2000")
    {[1%positive := scenario_store]}
  = (Ok 2%positive,
     <[2%positive :=
         <["A2" := mk_record "0" "0" "2" "N/A" "N/A" "N/A"]>
           {["A1" := mk_record "0" "0" "1" "N/A" "N/A" "N/A"]}]>
       {[1%positive := scenario_store]}).
Proof. vm_compute. reflexivity. Qed.

(** * Further properties of the parser *)

(** A loop that returns keeps what every step that returns keeps. *)
Lemma for_each_inv {A S} (body : S → A → result S) (P : S → Prop) xs :
  ∀ s s',
    for_each body xs s = Ok s' →
    P s →
    (∀ s0 x s1, x ∈ xs → P s0 → body s0 x = Ok s1 → P s1) →
    P s'.
Proof.
  induction xs as [|x xs IH]; intros s s'; cbn [for_each].
  - by intros [= <-].
  - destruct (body s x) as [s1|e] eqn:Hx; [|by rewrite bind_Raise].
    rewrite bind_Ok. intros Hrest Hs Hstep.
    apply (IH _ _ Hrest).
    + apply (Hstep s x); [left|done..].
    + intros s0 y s2 Hy. apply Hstep. by right.
Qed.






Lemma parse_lines_provenance lines (relationships : store) seen seen' rel' :
  for_each parse_line lines (seen, relationships) = Ok (seen', rel') →
  (∀ i r, relationships !! i = Some r → from_line lines i r) →
  ∀ i r, rel' !! i = Some r → from_line lines i r.
Proof.
  intros Hrun Hinit.
  apply (for_each_inv parse_line
           (λ st, ∀ i r, st.2 !! i = Some r → from_line lines i r)
           _ _ _ Hrun Hinit).
  intros [seen0 rel0] line [seen1 rel1] Hline Hinv. cbn [fst snd] in *.
  rewrite parse_line_cases. cbv zeta.
  case_decide; [by intros [= <- <-]|].
  case_decide; [by intros [= <- <-]|].
  destruct (Py.split comma (Py.strip line))
    as [|i' [|f [|m [|s [|u [|h [|a [|? ?]]]]]]]] eqn:Hf;
    try discriminate; intros [= <- <-]; try done.
  intros i r [[<- <-]|[_ ?]]%lookup_insert_Some; [|by apply Hinv].
  by exists line, f, m, s, u, h, a.
Qed.

(** The ids of the lines met so far are keys, and a key stays a key. *)
Lemma parse_lines_keys lines (relationships : store) seen seen' rel' :
  for_each parse_line lines (seen, relationships) = Ok (seen', rel') →
  (∀ t i rest, t ∈ seen → Py.split comma t = i :: rest →
               length rest = 6%nat → i ∈ dom relationships) →
  ∀ t i rest, t ∈ seen' → Py.split comma t = i :: rest →
              length rest = 6%nat → i ∈ dom rel'.
Proof.
  intros Hrun Hinit.
  apply (for_each_inv parse_line
           (λ st, ∀ t i rest, t ∈ st.1 → Py.split comma t = i :: rest →
                              length rest = 6%nat → i ∈ dom st.2)
           _ _ _ Hrun Hinit).
  intros [seen0 rel0] line [seen1 rel1] Hline Hinv. cbn [fst snd] in *.
  rewrite parse_line_cases. cbv zeta.
  case_decide; [by intros [= <- <-]|].
  case_decide; [by intros [= <- <-]|].
  destruct (Py.split comma (Py.strip line))
    as [|i' [|f [|m [|s [|u [|h [|a [|? ?]]]]]]]] eqn:Hf;
    try discriminate; intros [= <- <-];
    intros t i rest [Ht|Ht%elem_of_singleton]%elem_of_union Hsplit Hlen;
    try (by eapply Hinv);
    try (subst t; rewrite Hf in Hsplit;
         first [discriminate Hsplit
               |injection Hsplit as <- <-; simpl in Hlen; lia]).
  - rewrite dom_insert_L. apply elem_of_union. right. by eapply Hinv.
  - subst t. rewrite Hf in Hsplit. injection Hsplit as <- <-.
    rewrite dom_insert_L. set_solver.
Qed.

(** X2.  When parsing succeeds, the keys of the store are exactly the
    first fields of the lines that have seven fields once trimmed, so a
    line with fewer fields adds nothing; and every record of the store is
    the normalized record of such a line with that id. *)
Theorem parse_store_from_lines file_contents (relationships : store) :
  parse_ped_file file_contents = Ok relationships →
  (∀ i, i ∈ dom relationships
        ↔ ∃ line rest, line ∈ Py.split newline file_contents
                       ∧ fields line = i :: rest ∧ length rest = 6%nat)
  ∧ (∀ i r, relationships !! i = Some r →
            from_line (Py.split newline file_contents) i r).
Proof.
  unfold parse_ped_file, parse_lines. intros Hrun.
  destruct (for_each parse_line (Py.split newline file_contents) (∅, ∅))
    as [[seen' rel']|e] eqn:Hloop; [|by rewrite bind_Raise in Hrun].
  rewrite bind_Ok in Hrun. injection Hrun as <-. simpl.
  assert (∀ i r, rel' !! i = Some r
                 → from_line (Py.split newline file_contents) i r) as Hfrom.
  { apply (parse_lines_provenance _ _ _ _ _ Hloop). intros i r.
    by rewrite lookup_empty. }
  split; [|done]. intros i. split.
  - intros [r Hr]%elem_of_dom.
    destruct (Hfrom i r Hr) as (line & f & m & s & u & h & a & ? & ? & _).
    by exists line, [f; m; s; u; h; a].
  - intros (line & rest & Hline & Hf & Hlen).
    pose proof (parse_lines_seen _ _ _ _ _ Hloop) as [_ Hseen].
    destruct (Hseen line Hline) as [Hblank|Hin].
    + unfold fields in Hf. rewrite Hblank in Hf. injection Hf as <- <-.
      discriminate Hlen.
    + apply (parse_lines_keys _ _ _ _ _ Hloop) with (Py.strip line) rest;
        [set_solver|done..].
Qed.

Lemma parse_store_from_lines_witness :
  (∀ i, i ∈ dom scenario_store
        ↔ ∃ line rest, line ∈ Py.split newline scenario_text
                       ∧ fields line = i :: rest ∧ length rest = 6%nat)
  ∧ (∀ i r, scenario_store !! i = Some r →
            from_line (Py.split newline scenario_text) i r).
Proof.
  apply (parse_store_from_lines scenario_text scenario_store).
  vm_compute. reflexivity.
Defined.

Lemma split_fields_sep_free sep s x :
  x ∈ Py.split sep s → char_in sep x = false.
Proof.
  revert x. induction s as [|c s IH]; intros x; simpl.
  - by intros ->%list_elem_of_singleton.
  - destruct (Ascii.eqb c sep) eqn:Hc.
    + intros [->|Hx]%elem_of_cons; [done|by apply IH].
    + destruct (Py.split sep s) as [|field rest] eqn:Hs.
      * intros ->%list_elem_of_singleton. simpl. by rewrite Hc.
      * intros [->|Hx]%elem_of_cons.
        -- simpl. rewrite Hc. apply IH. left.
        -- apply IH. by right.
Qed.

(** X3.  In a store the parser returns, no band id and no auxiliary id is
    ["0"], no hatch year is blank, and neither an id nor a parent id holds
    a comma. *)
Theorem parsed_store_fields file_contents (relationships : store) i r :
  parse_ped_file file_contents = Ok relationships →
  relationships !! i = Some r →
  usgs_band_id r ≠ "0" ∧ aux_id r ≠ "0" ∧ hatch_year r ≠ ""
  ∧ char_in comma i = false
  ∧ char_in comma (father_id r) = false
  ∧ char_in comma (mother_id r) = false.
Proof.
  unfold parse_ped_file, parse_lines. intros Hrun Hr.
  destruct (for_each parse_line (Py.split newline file_contents) (∅, ∅))
    as [[seen' rel']|e] eqn:Hloop; [|by rewrite bind_Raise in Hrun].
  rewrite bind_Ok in Hrun. injection Hrun as <-. simpl in Hr.
  assert (∀ i r, (∅ : store) !! i = Some r
                 → from_line (Py.split newline file_contents) i r) as Hinit
    by (intros ? ?; by rewrite lookup_empty).
  destruct (parse_lines_provenance _ _ _ _ _ Hloop Hinit i r Hr)
    as (line & f & m & s & u & h & a & _ & Hf & ->).
  assert (∀ x, x ∈ [i; f; m; s; u; h; a] → char_in comma x = false) as Hfree
    by (intros x Hx; apply (split_fields_sep_free comma (Py.strip line));
        by rewrite <- Hf in Hx).
  unfold normalized. simpl.
  split; [by case_decide|]. split; [by case_decide|].
  split; [by case_decide|].
  repeat split; apply Hfree; set_solver.
Qed.

Lemma parsed_store_fields_witness :
  "N/A" ≠ "0" ∧ "N/A" ≠ "0" ∧ "1999" ≠ ""
  ∧ char_in comma "A3" = false
  ∧ char_in comma "A1" = false
  ∧ char_in comma "A2" = false.
Proof.
  apply (parsed_store_fields "A3,A1,A2,1,0,1999,0"
           {["A3" := mk_record "A1" "A2" "1" "N/A" "1999" "N/A"]} "A3"
           (mk_record "A1" "A2" "1" "N/A" "1999" "N/A")).
  - vm_compute. reflexivity.
  - vm_compute. reflexivity.
Defined.

Lemma parse_line_seen_from seen_lines (relationships : store) line seen' rel' :
  parse_line (seen_lines, relationships) line = Ok (seen', rel') →
  seen' ⊆ seen_lines ∪ {[Py.strip line]}.
Proof.
  rewrite parse_line_cases. cbv zeta.
  case_decide; [intros [= <- <-]; set_solver|].
  case_decide; [intros [= <- <-]; set_solver|].
  destruct (Py.split comma (Py.strip line))
    as [|? [|? [|? [|? [|? [|? [|? [|? ?]]]]]]]];
    try discriminate; by intros [= <- <-].
Qed.

Lemma parse_lines_seen_from lines (relationships : store) seen seen' rel' :
  for_each parse_line lines (seen, relationships) = Ok (seen', rel') →
  ∀ t, t ∈ seen' → t ∈ seen ∨ ∃ l, l ∈ lines ∧ Py.strip l = t.
Proof.
  intros Hrun.
  apply (for_each_inv parse_line
           (λ st, ∀ t, t ∈ st.1 → t ∈ seen ∨ ∃ l, l ∈ lines ∧ Py.strip l = t)
           _ _ _ Hrun); [by left|].
  intros [seen0 rel0] line [seen1 rel1] Hline Hinv. cbn [fst snd] in *.
  intros Hsub%parse_line_seen_from t Ht.
  apply Hsub in Ht as [Ht|Ht%elem_of_singleton]%elem_of_union;
    [by apply Hinv|].
  right. by exists line.
Qed.

(** X4.  The last line wins: when the last line of the input has seven
    fields and its trimmed text is not that of an earlier line, the record
    the store has under its id is the one made from it, whatever earlier
    lines said about that id. *)
Theorem last_line_wins pre last (relationships : store) i f m s u h a :
  Forall (λ l, char_in newline l = false) (pre ++ [last]) →
  parse_ped_file (unlines (pre ++ [last])) = Ok relationships →
  fields last = [i; f; m; s; u; h; a] →
  (∀ l, l ∈ pre → Py.strip l ≠ Py.strip last) →
  relationships !! i = Some (normalized f m s u h a).
Proof.
  intros Hfree Hrun Hf Hnew. unfold parse_ped_file, parse_lines in Hrun.
  rewrite split_unlines in Hrun by (done || by destruct pre).
  rewrite for_each_app in Hrun.
  destruct (for_each parse_line pre (∅, ∅)) as [[seen1 rel1]|e] eqn:Hpre;
    [|by rewrite !bind_Raise in Hrun].
  rewrite bind_Ok in Hrun. cbn [for_each] in Hrun.
  assert (Py.strip last ∉ seen1) as Hfresh.
  { intros Hin.
    apply (parse_lines_seen_from _ _ _ _ _ Hpre) in Hin
      as [Hin|(l & Hl & Heq)]; [set_solver|]. by apply (Hnew l). }
  rewrite parse_line_cases in Hrun. cbv zeta in Hrun. unfold fields in Hf.
  rewrite decide_False in Hrun
    by (intros Hblank; rewrite Hblank in Hf; discriminate Hf).
  rewrite decide_False in Hrun by done.
  rewrite Hf, !bind_Ok in Hrun. injection Hrun as <-. simpl.
  by rewrite lookup_insert_eq.
Qed.

Lemma last_line_wins_witness :
  (<["A2" := mk_record "A1" "0" "2" "N/A" "N/A" "N/A"]>
     {["A1" := mk_record "B" "C" "2" "U7" "2004" "N/A"]} : store) !! "A1"
  = Some (normalized "B" "C" "2" "U7" "2004" "0").
Proof.
  apply (last_line_wins ["A1,0,0,1,0,,0"; "A2,A1,0,2,0,,0"]
           "A1,B,C,2,U7,2004,0"
           (<["A2" := mk_record "A1" "0" "2" "N/A" "N/A" "N/A"]>
              {["A1" := mk_record "B" "C" "2" "U7" "2004" "N/A"]})).
  - repeat constructor.
  - vm_compute. reflexivity.
  - vm_compute. reflexivity.
  - intros l Hl. apply list_elem_of_In in Hl. simpl in Hl.
    destruct Hl as [<-|[<-|[]]]; vm_compute; discriminate.
Defined.

(** X5.  An input with nothing but blank lines, the empty input among
    them, gives the empty store. *)
Theorem parse_blank_input file_contents :
  (∀ line, line ∈ Py.split newline file_contents → Py.strip line = "") →
  parse_ped_file file_contents = Ok ∅.
Proof.
  unfold parse_ped_file, parse_lines. intros Hblank.
  assert (for_each parse_line (Py.split newline file_contents) (∅, ∅)
          = Ok (∅, ∅)) as ->; [|done].
  induction (Py.split newline file_contents) as [|l lines IH];
    cbn [for_each]; [done|].
  rewrite parse_line_skip by (left; apply Hblank; left).
  rewrite bind_Ok. apply IH. intros line Hin. apply Hblank. by right.
Qed.

Lemma parse_blank_input_witness :
  parse_ped_file (unlines [""; "   "; ""]) = Ok ∅.
Proof.
  apply parse_blank_input. intros line Hl.
  apply list_elem_of_In in Hl. vm_compute in Hl.
  destruct Hl as [<-|[<-|[<-|[]]]]; reflexivity.
Defined.

(** * Further properties of the mates and of the filter *)

(** X6.  [x] is in the mate set of [individual_id] exactly when both are
    keys of the store, [x] is not the sentinel ["0"], and some record of
    the store names the two as its parents, in either role. *)
Theorem mate_iff_shared_child (relationships : store) individual_id x :
  x ∈ get_mates relationships individual_id
  ↔ individual_id ∈ dom relationships ∧ x ∈ dom relationships ∧ x ≠ "0"
    ∧ ∃ child info,
        relationships !! child = Some info
        ∧ (father_id info = individual_id ∧ mother_id info = x
           ∨ mother_id info = individual_id ∧ father_id info = x).
Proof.
  rewrite elem_of_get_mates. unfold mate_via. split.
  - intros (Hid & child & info & Hchild & Hroles & Hx & Hx0).
    split; [done|]. split; [done|]. split; [done|]. by exists child, info.
  - intros (Hid & Hx & Hx0 & child & info & Hchild & Hroles).
    split; [done|]. by exists child, info.
Qed.

Lemma get_mates_sym (relationships : store) x y :
  x ∈ get_mates relationships y → y ≠ "0" → y ∈ get_mates relationships x.
Proof.
  rewrite !elem_of_get_mates. unfold mate_via.
  intros (Hy & child & info & Hchild & Hroles & Hx & Hx0) Hy0.
  split; [done|]. exists child, info. split; [done|].
  split; [tauto|done].
Qed.

(** X7.  Being mates is symmetric away from the sentinel: if [x] is a mate
    of [y] and [y] is not ["0"], then [y] is a mate of [x]. *)
Theorem mates_symmetric (relationships : store) x y :
  x ∈ get_mates relationships y → y ≠ "0" → y ∈ get_mates relationships x.
Proof. apply get_mates_sym. Qed.

Lemma mates_symmetric_witness : "F" ∈ get_mates inbred_store "M2".
Proof.
  apply (mates_symmetric inbred_store "M2" "F"); [compute_done|done].
Defined.

Lemma get_mates_mono (rel1 rel2 : store) individual_id :
  rel1 ⊆ rel2 → get_mates rel1 individual_id ⊆ get_mates rel2 individual_id.
Proof.
  intros Hsub x. rewrite !elem_of_get_mates. unfold mate_via.
  pose proof (subseteq_dom _ _ Hsub) as Hdom.
  intros (Hid & child & info & Hchild & Hroles & Hx & Hx0).
  split; [by apply Hdom|]. exists child, info.
  split; [by eapply lookup_weaken|]. split; [done|]. split; [by apply Hdom|done].
Qed.

(** X8.  A smaller store has no more mates: when every record of [rel1]
    is a record of [rel2], the mate set of an id in [rel1] is part of its
    mate set in [rel2]. *)
Theorem mates_monotone (rel1 rel2 : store) individual_id :
  rel1 ⊆ rel2 → get_mates rel1 individual_id ⊆ get_mates rel2 individual_id.
Proof. apply get_mates_mono. Qed.

Lemma mates_monotone_witness :
  get_mates (delete "C" inbred_store) "F" ⊆ get_mates inbred_store "F".
Proof.
  apply (mates_monotone (delete "C" inbred_store) inbred_store "F").
  apply delete_subseteq.
Defined.

(** X9.  With any year filter, and a focal id [F] that is a key and not
    empty, the filter returns a sub-mapping of the store whose keys are
    exactly: [F]; each parent [F]'s record names that is a key and not
    ["0"]; the mates of [F]; and the children of [F] or of a mate whose
    hatch year the filter lets through.  So the year filter never drops
    the focal individual, its parents or its mates. *)
Theorem filter_family_keys (relationships : store) F focal filter_year :
  F ≠ "" →
  relationships !! F = Some focal →
  ∃ family : store,
    filter_family relationships F filter_year = Ok family
    ∧ family ⊆ relationships
    ∧ ∀ k, k ∈ dom family
           ↔ k = F
             ∨ (k = father_id focal ∧ k ∈ dom relationships ∧ k ≠ "0")
             ∨ (k = mother_id focal ∧ k ∈ dom relationships ∧ k ≠ "0")
             ∨ k ∈ get_mates relationships F
             ∨ ∃ info,
                 relationships !! k = Some info
                 ∧ (father_id info = F ∨ mother_id info = F
                    ∨ father_id info ∈ get_mates relationships F
                    ∨ mother_id info ∈ get_mates relationships F)
                 ∧ (filter_year = None
                    ∨ filter_year = Some (hatch_year info)).
Proof. apply filter_family_spec. Qed.

Lemma filter_family_keys_witness :
  ∃ family : store,
    filter_family inbred_store "F" (Some "1850") = Ok family
    ∧ family ⊆ inbred_store
    ∧ ∀ k, k ∈ dom family
           ↔ k = "F"
             ∨ (k = "0" ∧ k ∈ dom inbred_store ∧ k ≠ "0")
             ∨ (k = "0" ∧ k ∈ dom inbred_store ∧ k ≠ "0")
             ∨ k ∈ get_mates inbred_store "F"
             ∨ ∃ info,
                 inbred_store !! k = Some info
                 ∧ (father_id info = "F" ∨ mother_id info = "F"
                    ∨ father_id info ∈ get_mates inbred_store "F"
                    ∨ mother_id info ∈ get_mates inbred_store "F")
                 ∧ (Some "1850" = None
                    ∨ Some "1850" = Some (hatch_year info)).
Proof.
  apply (filter_family_keys inbred_store "F"
           (mk_record "0" "0" "1" "N/A" "N/A" "N/A") (Some "1850")).
  - discriminate.
  - vm_compute. reflexivity.
Defined.

(** Two sub-mappings of one store are ordered as their key sets are. *)
Lemma submap_of_dom (m1 m2 m : store) :
  m1 ⊆ m → m2 ⊆ m → dom m1 ⊆ dom m2 → m1 ⊆ m2.
Proof.
  intros H1 H2 Hdom. apply map_subseteq_spec. intros k v Hk.
  assert (k ∈ dom m2) as [v' Hv']%elem_of_dom
    by (apply Hdom; by apply elem_of_dom_2 in Hk).
  rewrite Hv'. f_equal.
  apply (lookup_weaken _ _ _ _ Hk) in H1.
  apply (lookup_weaken _ _ _ _ Hv') in H2. congruence.
Qed.

(** X10.  A year filter only takes away: for any focal id, what the
    filter returns with a year filter is a sub-mapping of what it returns
    with none. *)
Theorem year_filter_shrinks (relationships : store) individual_id y :
  ∃ filtered unfiltered : store,
    filter_family relationships individual_id (Some y) = Ok filtered
    ∧ filter_family relationships individual_id None = Ok unfiltered
    ∧ filtered ⊆ unfiltered.
Proof.
  destruct (decide (individual_id = "" ∨ individual_id ∉ dom relationships))
    as [Hpass|Hfocus].
  - exists relationships, relationships.
    by rewrite !filter_family_pass.
  - assert (individual_id ≠ "") as Hne by (intros ?; apply Hfocus; by left).
    assert (individual_id ∈ dom relationships) as [focal Hfocal]%elem_of_dom
      by (apply dec_stable; intros ?; apply Hfocus; by right).
    destruct (filter_family_spec relationships individual_id (Some y)
                focal Hne Hfocal) as (fy & Hfy & Hsuby & Hdomy).
    destruct (filter_family_spec relationships individual_id None
                focal Hne Hfocal) as (fn & Hfn & Hsubn & Hdomn).
    exists fy, fn. split; [done|]. split; [done|].
    apply (submap_of_dom _ _ relationships); [done..|].
    intros k. rewrite Hdomy, Hdomn. unfold in_family, year_ok.
    intros [?|[?|[?|[?|(info & ? & ? & _)]]]]; auto 6.
    do 4 right. exists info. auto.
Qed.

(** The mates of the focal individual in the family the filter returns
    with no year filter are its mates in the store. *)
Lemma family_mates (relationships family : store) F focal :
  F ≠ "" →
  relationships !! F = Some focal →
  filter_family relationships F None = Ok family →
  get_mates family F = get_mates relationships F.
Proof.
  intros Hne Hfocal Hrun.
  destruct (filter_family_spec relationships F None focal Hne Hfocal)
    as (family' & Hrun' & Hsub & Hdom).
  rewrite Hrun in Hrun'. injection Hrun' as <-.
  apply set_eq. intros x. split; [by apply get_mates_mono|].
  intros Hx. pose proof Hx as Hx'. revert Hx'.
  rewrite !elem_of_get_mates. unfold mate_via.
  intros (HF & child & info & Hchild & Hroles & _ & Hx0).
  split; [apply Hdom; by left|]. exists child, info.
  assert (child ∈ dom family) as [info' Hchild']%elem_of_dom.
  { apply Hdom. do 4 right. exists info. split; [done|].
    split; [|by left]. unfold is_child. tauto. }
  pose proof (lookup_weaken _ _ _ _ Hchild' Hsub) as Heq.
  rewrite Hchild in Heq. injection Heq as <-.
  split; [done|]. split; [done|]. split; [|done].
  apply Hdom. by do 3 right; left.
Qed.

(** X11.  After a filter with no year filter the focal individual has the
    mates it had: the mate set of [F] in the family is its mate set in the
    store. *)
Theorem filter_keeps_mates (relationships family : store) F focal :
  F ≠ "" →
  relationships !! F = Some focal →
  filter_family relationships F None = Ok family →
  get_mates family F = get_mates relationships F.
Proof. apply family_mates. Qed.

Lemma filter_keeps_mates_witness :
  get_mates inbred_store "F"
  = get_mates (<["Z" := mk_record "0" "0" "1" "N/A" "N/A" "N/A"]> inbred_store)
      "F".
Proof.
  apply (filter_keeps_mates
           (<["Z" := mk_record "0" "0" "1" "N/A" "N/A" "N/A"]> inbred_store)
           inbred_store "F" (mk_record "0" "0" "1" "N/A" "N/A" "N/A"));
    [discriminate|vm_compute; reflexivity..].
Defined.

(** X12.  Filtering twice is filtering once when there is no year filter:
    the filter applied, with the same focal id, to what it returned
    returns it again. *)
Theorem filter_idempotent (relationships family : store) individual_id :
  filter_family relationships individual_id None = Ok family →
  filter_family family individual_id None = Ok family.
Proof.
  intros Hrun.
  destruct (decide (individual_id = "" ∨ individual_id ∉ dom relationships))
    as [Hpass|Hfocus].
  - rewrite filter_family_pass in Hrun by done. injection Hrun as <-.
    by apply filter_family_pass.
  - assert (individual_id ≠ "") as Hne by (intros ?; apply Hfocus; by left).
    assert (individual_id ∈ dom relationships) as [focal Hfocal]%elem_of_dom
      by (apply dec_stable; intros ?; apply Hfocus; by right).
    pose proof (family_mates _ _ _ _ Hne Hfocal Hrun) as Hmates.
    destruct (filter_family_spec relationships individual_id None
                focal Hne Hfocal) as (family' & Hrun' & Hsub & Hdom).
    rewrite Hrun in Hrun'. injection Hrun' as <-.
    assert (family !! individual_id = Some focal) as Hfocal'.
    { assert (individual_id ∈ dom family) as [v Hv]%elem_of_dom
        by (apply Hdom; by left).
      pose proof (lookup_weaken _ _ _ _ Hv Hsub). congruence. }
    destruct (filter_family_spec family individual_id None focal Hne Hfocal')
      as (again & -> & Hsub2 & Hdom2).
    f_equal. apply (anti_symm (⊆)); [done|].
    apply (submap_of_dom _ _ family); [done..|].
    intros k Hk. apply Hdom2. pose proof Hk as Hin. apply Hdom in Hin.
    unfold in_family, valid_parent in *. rewrite Hmates.
    destruct Hin as [?|[[? [_ ?]]|[[? [_ ?]]|[?|(info & Hinfo & ? & ?)]]]];
      auto 7.
    do 4 right. exists info. split; [|done].
    apply elem_of_dom in Hk as [v Hv].
    pose proof (lookup_weaken _ _ _ _ Hv Hsub). congruence.
Qed.

Lemma filter_idempotent_witness :
  filter_family inbred_store "F" None = Ok inbred_store.
Proof.
  apply (filter_idempotent
           (<["Z" := mk_record "0" "0" "1" "N/A" "N/A" "N/A"]> inbred_store)
           inbred_store "F").
  vm_compute. reflexivity.
Defined.

(** * Further properties of the renderer *)

Lemma node_names_snoc b s :
  node_names (b ++ [s])%list
  = (node_names b ++ match s with Node n _ => [n] | _ => [] end)%list.
Proof.
  induction b as [|s' b IH]; simpl.
  - by destruct s.
  - destruct s'; simpl; by rewrite IH.
Qed.

Lemma edge_pairs_snoc b s :
  edge_pairs (b ++ [s])%list
  = (edge_pairs b ++ match s with Edge p c _ => [(p, c)] | _ => [] end)%list.
Proof.
  induction b as [|s' b IH]; simpl.
  - by destruct s.
  - destruct s'; simpl; by rewrite IH.
Qed.

Lemma node_names_ok (relationships : store) b x :
  Forall (stmt_ok relationships) b → x ∈ node_names b →
  x ∈ dom relationships.
Proof.
  induction 1 as [|s b Hs _ IH]; simpl; [by intros ?%elem_of_nil|].
  destruct s as [| n attrs | |]; try done.
  intros [->|?]%elem_of_cons; [|by apply IH].
  destruct Hs as (info & _ & Hinfo & _). by apply elem_of_dom_2 in Hinfo.
Qed.

(** A statement that is no node leaves the nodes as they are. *)
Lemma add_stmt_ok (relationships : store) s c :
  (∀ n attrs, s ≠ Node n attrs) →
  stmt_ok relationships s →
  canvas_ok relationships c →
  canvas_ok relationships (add_stmt s c)
  ∧ drawn (add_stmt s c) = drawn c
  ∧ node_names (body (dot (add_stmt s c))) = node_names (body (dot c)).
Proof.
  intros Hs Hok (Hnodup & Hdrawn & Hall). unfold add_stmt, canvas_ok. simpl.
  assert (node_names (body (dot c) ++ [s])%list = node_names (body (dot c)))
    as ->.
  { rewrite node_names_snoc. destruct s; rewrite ?app_nil_r; try done.
    by destruct (Hs name attrs). }
  repeat split; try done; try apply Hdrawn.
  apply Forall_app. split; [done|]. by constructor.
Qed.

Lemma edge_color_by_sex (relationships : store) p :
  edge_color relationships p
  = match relationships !! p with
    | Some info => by_sex "blue" "red" "gray" (sex info)
    | None => "gray"
    end.
Proof. unfold edge_color, by_sex. by destruct (relationships !! p). Qed.

Lemma add_edge_ok (relationships : store) p ch c :
  canvas_ok relationships c →
  canvas_ok relationships (add_edge relationships p ch c)
  ∧ drawn (add_edge relationships p ch c) = drawn c
  ∧ edge_pairs (body (dot (add_edge relationships p ch c)))
    = (edge_pairs (body (dot c)) ++ [(p, ch)])%list.
Proof.
  intros Hc. unfold add_edge.
  destruct (add_stmt_ok relationships
              (Edge p ch [("color", edge_color relationships p)]) c)
    as (Hc' & Hd & _); [done| |done|].
  { simpl. by rewrite edge_color_by_sex. }
  split; [done|]. split; [done|]. simpl. by rewrite edge_pairs_snoc.
Qed.

Lemma add_rank_same_ok (relationships : store) c :
  canvas_ok relationships c →
  canvas_ok relationships (add_stmt rank_same c)
  ∧ drawn (add_stmt rank_same c) = drawn c
  ∧ edge_pairs (body (dot (add_stmt rank_same c))) = edge_pairs (body (dot c)).
Proof.
  intros Hc.
  destruct (add_stmt_ok relationships rank_same c) as (Hc' & Hd & _);
    [done|done|done|].
  split; [done|]. split; [done|]. simpl.
  by rewrite edge_pairs_snoc, app_nil_r.
Qed.

(** [create_node] draws [iid] when it is a key and was not drawn, and
    does nothing otherwise; it adds no edge. *)
Lemma create_node_ok (relationships : store) c iid :
  canvas_ok relationships c →
  ∃ c', create_node relationships c iid = Ok c'
        ∧ canvas_ok relationships c'
        ∧ (∀ x, x ∈ drawn c' ↔ x ∈ drawn c ∨ x = iid ∧ iid ∈ dom relationships)
        ∧ edge_pairs (body (dot c')) = edge_pairs (body (dot c)).
Proof.
  intros (Hnodup & Hdrawn & Hall). unfold create_node.
  case_decide as Hguard.
  - destruct Hguard as [Hnew Hkey]. pose proof Hkey as [info Hinfo]%elem_of_dom.
    rewrite (getitem_Some _ _ _ Hinfo), bind_Ok.
    match goal with
    | |- context [Py.join ?sep ?ls] => generalize (Py.join sep ls)
    end.
    intros label.
    assert ((if decide (sex info = "1") then ("box", "lightblue")
             else if decide (sex info = "2") then ("ellipse", "lightpink")
             else ("egg", "gray"))
            = (by_sex "box" "ellipse" "egg" (sex info),
               by_sex "lightblue" "lightpink" "gray" (sex info))) as ->
      by (unfold by_sex; by repeat case_decide).
    eexists. split; [done|]. unfold canvas_ok, add_stmt. simpl.
    rewrite node_names_snoc, edge_pairs_snoc, app_nil_r.
    split; [|split; [|done]].
    + split; [|split].
      * apply NoDup_app. split; [done|]. split; [|apply NoDup_singleton].
        intros x Hx ->%list_elem_of_singleton. by apply Hnew, Hdrawn.
      * intros x. rewrite elem_of_app, list_elem_of_singleton, Hdrawn.
        set_solver.
      * apply Forall_app. split; [done|]. constructor; [|done].
        by exists info, label.
    + intros x. set_solver.
  - exists c. split; [done|]. split; [done|]. split; [|done].
    intros x. split; [by left|]. intros [?|[-> Hkey]]; [done|].
    destruct (decide (iid ∈ drawn c)); [done|]. by destruct Hguard.
Qed.

Section Draws.

Variable relationships : store.

Lemma draws_refl c :
  canvas_ok relationships c →
  draws relationships c c (λ _, False) (λ _, False).
Proof. intros Hc. split; [done|]. split; intros ?; tauto. Qed.

Lemma draws_trans c c1 c2 D1 E1 D2 E2 :
  draws relationships c c1 D1 E1 →
  draws relationships c1 c2 D2 E2 →
  draws relationships c c2 (λ x, D1 x ∨ D2 x) (λ e, E1 e ∨ E2 e).
Proof.
  intros (_ & Hd1 & He1) (Hok & Hd2 & He2). split; [done|].
  split; [intros x; rewrite Hd2, Hd1|intros e; rewrite He2, He1]; tauto.
Qed.

Lemma draws_iff c c' D E D' E' :
  (∀ x, D x ↔ D' x) → (∀ e, E e ↔ E' e) →
  draws relationships c c' D E → draws relationships c c' D' E'.
Proof.
  intros HD HE (Hok & Hd & He). split; [done|].
  split; [intros x; rewrite Hd, HD|intros e; rewrite He, HE]; tauto.
Qed.

Lemma draws_ok c c' D E :
  draws relationships c c' D E → canvas_ok relationships c'.
Proof. by intros [? _]. Qed.

Lemma draws_create_node c iid :
  canvas_ok relationships c →
  ∃ c', create_node relationships c iid = Ok c'
        ∧ draws relationships c c'
            (λ x, x = iid ∧ iid ∈ dom relationships) (λ _, False).
Proof.
  intros Hc. destruct (create_node_ok relationships c iid Hc)
    as (c' & Hrun & Hok & Hd & He).
  exists c'. split; [done|]. split; [done|]. split; [done|].
  intros e. rewrite He. tauto.
Qed.

Lemma draws_add_edge c p ch :
  canvas_ok relationships c →
  draws relationships c (add_edge relationships p ch c)
    (λ _, False) (λ e, e = (p, ch)).
Proof.
  intros Hc. destruct (add_edge_ok relationships p ch c Hc) as (Hok & Hd & He).
  split; [done|]. split.
  - intros x. rewrite Hd. tauto.
  - intros e. rewrite He, elem_of_app, list_elem_of_singleton. tauto.
Qed.

Lemma draws_rank_same c :
  canvas_ok relationships c →
  draws relationships c (add_stmt rank_same c) (λ _, False) (λ _, False).
Proof.
  intros Hc. destruct (add_rank_same_ok relationships c Hc) as (Hok & Hd & He).
  split; [done|]. split.
  - intros x. rewrite Hd. tauto.
  - intros e. rewrite He. tauto.
Qed.

(** The loops. *)
Lemma draws_create_nodes xs : ∀ c,
  canvas_ok relationships c →
  ∃ c', for_each (create_node relationships) xs c = Ok c'
        ∧ draws relationships c c'
            (λ x, x ∈ xs ∧ x ∈ dom relationships) (λ _, False).
Proof.
  induction xs as [|y xs IH]; intros c Hc; cbn [for_each].
  - exists c. split; [done|].
    eapply draws_iff; [..|by apply draws_refl]; [|done].
    intros x. rewrite elem_of_nil. tauto.
  - destruct (draws_create_node c y Hc) as (c1 & -> & H1). rewrite bind_Ok.
    destruct (IH c1 (draws_ok _ _ _ _ H1)) as (c2 & -> & H2).
    exists c2. split; [done|].
    eapply draws_iff; [..|exact (draws_trans _ _ _ _ _ _ _ H1 H2)].
    + intros x. rewrite elem_of_cons. split.
      * intros [[-> ?]|[? ?]]; auto.
      * intros [[->|?] ?]; auto.
    + intros e. tauto.
Qed.

Lemma draws_child FOCUS_ID mates c item :
  canvas_ok relationships c →
  relationships !! item.1 = Some item.2 →
  ∃ c', draw_child relationships FOCUS_ID mates c item = Ok c'
        ∧ draws relationships c c'
            (λ x, x = item.1 ∧ is_child FOCUS_ID mates item.2)
            (child_edge FOCUS_ID mates item).
Proof.
  destruct item as [cid cinfo]. simpl. intros Hc Hitem.
  unfold draw_child, is_child, child_edge. simpl. case_decide as Hchild.
  - destruct (draws_create_node c cid Hc) as (c1 & -> & H1). rewrite bind_Ok.
    pose proof (draws_ok _ _ _ _ H1) as Hc1.
    set (c2 := if decide (father_id cinfo = FOCUS_ID ∨ father_id cinfo ∈ mates)
               then add_edge relationships (father_id cinfo) cid c1 else c1).
    assert (draws relationships c1 c2 (λ _, False)
              (λ e, e = (father_id cinfo, cid)
                    ∧ (father_id cinfo = FOCUS_ID ∨ father_id cinfo ∈ mates)))
      as H2.
    { unfold c2. case_decide.
      - eapply draws_iff; [..|by apply draws_add_edge]; [done|]. intros e. tauto.
      - eapply draws_iff; [..|by apply draws_refl]; [done|]. intros e. tauto. }
    pose proof (draws_ok _ _ _ _ H2) as Hc2.
    set (c3 := if decide (mother_id cinfo = FOCUS_ID ∨ mother_id cinfo ∈ mates)
               then add_edge relationships (mother_id cinfo) cid c2 else c2).
    assert (draws relationships c2 c3 (λ _, False)
              (λ e, e = (mother_id cinfo, cid)
                    ∧ (mother_id cinfo = FOCUS_ID ∨ mother_id cinfo ∈ mates)))
      as H3.
    { unfold c3. case_decide.
      - eapply draws_iff; [..|by apply draws_add_edge]; [done|]. intros e. tauto.
      - eapply draws_iff; [..|by apply draws_refl]; [done|]. intros e. tauto. }
    exists c3. split; [done|].
    eapply draws_iff;
      [..|exact (draws_trans _ _ _ _ _ _ _
                   (draws_trans _ _ _ _ _ _ _ H1 H2) H3)].
    + intros x. apply elem_of_dom_2 in Hitem. tauto.
    + intros [p ch]. simpl. split.
      * intros [ [ [] | [ [= -> ->] ? ] ] | [ [= -> ->] ? ] ]; auto.
      * intros (-> & [-> | ->] & ?); [left; right|right]; auto.
  - exists c. split; [done|].
    eapply draws_iff; [..|by apply draws_refl].
    + intros x. tauto.
    + intros [p ch]. simpl. split; [done|].
      intros (_ & [-> | ->] & ?); tauto.
Qed.

Lemma draws_children FOCUS_ID mates (its : list (string * record)) : ∀ c,
  canvas_ok relationships c →
  (∀ it, it ∈ its → relationships !! it.1 = Some it.2) →
  ∃ c', for_each (draw_child relationships FOCUS_ID mates) its c = Ok c'
        ∧ draws relationships c c'
            (λ x, ∃ it, it ∈ its ∧ x = it.1 ∧ is_child FOCUS_ID mates it.2)
            (λ e, ∃ it, it ∈ its ∧ child_edge FOCUS_ID mates it e).
Proof.
  induction its as [|it its IH]; intros c Hc Hits; cbn [for_each].
  - exists c. split; [done|].
    eapply draws_iff; [..|by apply draws_refl].
    + intros x. split; [done|]. by intros (? & ?%elem_of_nil & _).
    + intros e. split; [done|]. by intros (? & ?%elem_of_nil & _).
  - destruct (draws_child FOCUS_ID mates c it Hc) as (c1 & -> & H1);
      [apply Hits; left|].
    rewrite bind_Ok.
    destruct (IH c1 (draws_ok _ _ _ _ H1)) as (c2 & -> & H2).
    { intros it' Hin. apply Hits. by right. }
    exists c2. split; [done|].
    eapply draws_iff; [..|exact (draws_trans _ _ _ _ _ _ _ H1 H2)].
    + intros x. split.
      * intros [[-> ?]|(it' & ? & ?)].
        -- exists it. split; [left|done].
        -- exists it'. split; [by right|done].
      * intros (it' & [->|?]%elem_of_cons & ?); [by left|]. right. by exists it'.
    + intros e. split.
      * intros [?|(it' & ? & ?)].
        -- exists it. split; [left|done].
        -- exists it'. split; [by right|done].
      * intros (it' & [->|?]%elem_of_cons & ?); [by left|]. right. by exists it'.
Qed.

Lemma draws_parent_edges (its : list (string * record)) : ∀ c,
  canvas_ok relationships c →
  draws relationships c (foldl (draw_parent_edges relationships) c its)
    (λ _, False)
    (λ e, ∃ it, it ∈ its ∧ parent_edge relationships it e).
Proof.
  induction its as [|[iid info] its IH]; intros c Hc; cbn [foldl].
  - eapply draws_iff; [..|by apply draws_refl]; [done|].
    intros e. split; [done|]. by intros (? & ?%elem_of_nil & _).
  - unfold draw_parent_edges at 2.
    set (c1 := if decide (father_id info ∈ dom relationships
                          ∧ father_id info ≠ "0")
               then add_edge relationships (father_id info) iid c else c).
    assert (draws relationships c c1 (λ _, False)
              (λ e, e = (father_id info, iid)
                    ∧ father_id info ∈ dom relationships
                    ∧ father_id info ≠ "0")) as H1.
    { unfold c1. case_decide.
      - eapply draws_iff; [..|by apply draws_add_edge]; [done|]. intros e. tauto.
      - eapply draws_iff; [..|by apply draws_refl]; [done|]. intros e. tauto. }
    pose proof (draws_ok _ _ _ _ H1) as Hc1.
    set (c2 := if decide (mother_id info ∈ dom relationships
                          ∧ mother_id info ≠ "0")
               then add_edge relationships (mother_id info) iid c1 else c1).
    assert (draws relationships c1 c2 (λ _, False)
              (λ e, e = (mother_id info, iid)
                    ∧ mother_id info ∈ dom relationships
                    ∧ mother_id info ≠ "0")) as H2.
    { unfold c2. case_decide.
      - eapply draws_iff; [..|by apply draws_add_edge]; [done|]. intros e. tauto.
      - eapply draws_iff; [..|by apply draws_refl]; [done|]. intros e. tauto. }
    pose proof (IH c2 (draws_ok _ _ _ _ H2)) as H3.
    eapply draws_iff;
      [..|exact (draws_trans _ _ _ _ _ _ _
                   (draws_trans _ _ _ _ _ _ _ H1 H2) H3)].
    + intros x. tauto.
    + intros [p ch]. unfold parent_edge. simpl. split.
      * intros [ [ [ [= -> ->] ? ] | [ [= -> ->] ? ] ] | (it' & ? & ?) ].
        -- exists (iid, info). split; [left|]. simpl. tauto.
        -- exists (iid, info). split; [left|]. simpl. tauto.
        -- exists it'. split; [by right|done].
      * intros (it' & [->|?]%elem_of_cons & Hedge).
        -- simpl in Hedge. destruct Hedge as (-> & [-> | ->] & ?); tauto.
        -- right. by exists it'.
Qed.

End Draws.

(** The canvas [build_graph] starts from. *)
Lemma first_canvas_ok (relationships : store) :
  let c0 := add_stmt (Attr (Some "graph") [("dpi", "1000")])
              (add_stmt (Attr None [("rankdir", "TB"); ("nodesep", "0.2");
                                    ("ranksep", "0.6"); ("size", "8,8!")])
                 {| dot := {| format := "png"; body := [] |}; drawn := ∅ |}) in
  canvas_ok relationships c0
  ∧ drawn c0 = ∅ ∧ edge_pairs (body (dot c0)) = [].
Proof.
  simpl. split; [|done]. split; [apply NoDup_nil_2|].
  split; [intros x; simpl; set_solver|]. simpl. by repeat constructor.
Qed.

(** The graph with no focus: every key is drawn, and every parent link
    between two keys is an edge. *)
Lemma build_graph_unfocused (relationships : store) FOCUS_ID :
  focused relationships FOCUS_ID = None →
  ∃ c, build_graph relationships FOCUS_ID = Ok (dot c)
       ∧ canvas_ok relationships c
       ∧ (∀ x, x ∈ drawn c ↔ x ∈ dom relationships)
       ∧ (∀ e, e ∈ edge_pairs (body (dot c))
               ↔ ∃ it, it ∈ map_to_list relationships
                       ∧ parent_edge relationships it e).
Proof.
  intros Hfocus. unfold build_graph. rewrite Hfocus.
  destruct (first_canvas_ok relationships) as (Hc0 & Hd0 & He0).
  cbv zeta in Hc0, Hd0, He0.
  match goal with
  | |- context [for_each (create_node _) ?xs ?c ≫= _] =>
      destruct (draws_create_nodes relationships xs c Hc0) as (c1 & -> & H1)
  end.
  rewrite !bind_Ok.
  pose proof (draws_parent_edges relationships (map_to_list relationships)
                c1 (draws_ok _ _ _ _ _ H1)) as H2.
  destruct (draws_trans _ _ _ _ _ _ _ _ H1 H2) as (Hok & Hd & He).
  eexists. split; [done|]. split; [done|]. split.
  - intros x. rewrite Hd, Hd0. split.
    + intros [?%elem_of_empty|[[_ ?]|[]]]; done.
    + intros Hx. right. left. split; [|done].
      apply elem_of_dom in Hx as [info Hinfo].
      apply list_elem_of_fmap. exists (x, info). split; [done|].
      by apply elem_of_map_to_list.
  - intros e. rewrite He, He0. split.
    + intros [?%elem_of_nil|[[]|?]]; done.
    + intros ?. by right; right.
Qed.

(** The focused graph: the nodes are the family of the focal individual
    (the keys [filter_family] keeps with no year filter), and the edges
    come to it from its parents, and to the children from it and from its
    mates. *)
Lemma build_graph_focused (relationships : store) FOCUS_ID F focal :
  focused relationships FOCUS_ID = Some F →
  relationships !! F = Some focal →
  ∃ c, build_graph relationships FOCUS_ID = Ok (dot c)
       ∧ canvas_ok relationships c
       ∧ (∀ x, x ∈ drawn c ↔ in_family relationships F focal None x)
       ∧ (∀ e, e ∈ edge_pairs (body (dot c))
               ↔ (e.2 = F
                  ∧ (e.1 = father_id focal ∨ e.1 = mother_id focal)
                  ∧ valid_parent relationships e.1)
                 ∨ ∃ it, it ∈ map_to_list relationships
                         ∧ child_edge F (get_mates relationships F) it e).
Proof.
  intros Hfocus Hfocal. unfold build_graph. rewrite Hfocus.
  rewrite !(getitem_Some _ _ _ Hfocal), !bind_Ok.
  destruct (first_canvas_ok relationships) as (Hc0 & Hd0 & He0).
  cbv zeta in Hc0, Hd0, He0.
  match type of Hc0 with canvas_ok _ ?c => set (c0 := c) in * end.
  (* the parents *)
  match goal with
  | |- context [(if ?b then ?th else ?el) ≫= _] =>
      assert (∃ c1, (if b then th else el) = Ok c1
                    ∧ draws relationships c0 c1
                        (λ x, (x = father_id focal ∨ x = mother_id focal)
                              ∧ valid_parent relationships x)
                        (λ e, e.2 = F
                              ∧ (e.1 = father_id focal ∨ e.1 = mother_id focal)
                              ∧ valid_parent relationships e.1))
        as (c1 & -> & H1)
  end.
  { unfold valid_parent. case_decide as Hboth.
    - destruct Hboth as (Hf & Hf0 & Hm & Hm0).
      match goal with
      | |- context [create_node ?r ?c ?i ≫= _] =>
          destruct (draws_create_node r c i Hc0) as (ca & -> & Ha)
      end.
      rewrite bind_Ok.
      match goal with
      | |- context [create_node ?r ?c ?i ≫= _] =>
          destruct (draws_create_node r c i (draws_ok _ _ _ _ _ Ha))
            as (cb & -> & Hb)
      end.
      rewrite bind_Ok.
      pose proof (draws_rank_same relationships cb (draws_ok _ _ _ _ _ Hb))
        as Hr.
      pose proof (draws_add_edge relationships _ (father_id focal) F
                    (draws_ok _ _ _ _ _ Hr)) as He1.
      pose proof (draws_add_edge relationships _ (mother_id focal) F
                    (draws_ok _ _ _ _ _ He1)) as He2.
      eexists. split; [done|].
      eapply draws_iff;
        [..|exact (draws_trans _ _ _ _ _ _ _ _
                     (draws_trans _ _ _ _ _ _ _ _
                        (draws_trans _ _ _ _ _ _ _ _
                           (draws_trans _ _ _ _ _ _ _ _ Ha Hb) Hr) He1) He2)].
      + intros x. simpl. split.
        * intros [[[[[-> ?]|[-> ?]]|[]]|[]]|[]]; auto.
        * intros [[-> | ->] _]; tauto.
      + intros [p ch]. simpl. split.
        * intros [[[[[]|[]]|[]]|[= -> ->]]|[= -> ->]]; auto.
        * intros (-> & [-> | ->] & _); auto.
    - match goal with
      | |- context [(if ?b then ?th else ?el) ≫= _] =>
          assert (∃ ca, (if b then th else el) = Ok ca
                        ∧ draws relationships c0 ca
                            (λ x, x = father_id focal
                                  ∧ father_id focal ∈ dom relationships
                                  ∧ father_id focal ≠ "0")
                            (λ e, e = (father_id focal, F)
                                  ∧ father_id focal ∈ dom relationships
                                  ∧ father_id focal ≠ "0"))
            as (ca & -> & Ha)
      end.
      { case_decide as Hf.
        - match goal with
          | |- context [create_node ?r ?c ?i ≫= _] =>
              destruct (draws_create_node r c i Hc0) as (ca & -> & Ha)
          end.
          rewrite bind_Ok. eexists. split; [done|].
          pose proof (draws_add_edge relationships _ (father_id focal) F
                        (draws_ok _ _ _ _ _ Ha)) as He1.
          eapply draws_iff; [..|exact (draws_trans _ _ _ _ _ _ _ _ Ha He1)].
          + intros x. simpl. tauto.
          + intros e. simpl. tauto.
        - eexists. split; [done|].
          eapply draws_iff; [..|by apply draws_refl]; intros ?; simpl; tauto. }
      rewrite bind_Ok.
      match goal with
      | |- context [(if ?b then ?th else ?el) ≫= _] =>
          assert (∃ cb, (if b then th else el) = Ok cb
                        ∧ draws relationships ca cb
                            (λ x, x = mother_id focal
                                  ∧ mother_id focal ∈ dom relationships
                                  ∧ mother_id focal ≠ "0")
                            (λ e, e = (mother_id focal, F)
                                  ∧ mother_id focal ∈ dom relationships
                                  ∧ mother_id focal ≠ "0"))
            as (cb & -> & Hb)
      end.
      { case_decide as Hm.
        - match goal with
          | |- context [create_node ?r ?c ?i ≫= _] =>
              destruct (draws_create_node r c i (draws_ok _ _ _ _ _ Ha))
                as (cb & -> & Hb)
          end.
          rewrite bind_Ok. eexists. split; [done|].
          pose proof (draws_add_edge relationships _ (mother_id focal) F
                        (draws_ok _ _ _ _ _ Hb)) as He1.
          eapply draws_iff; [..|exact (draws_trans _ _ _ _ _ _ _ _ Hb He1)].
          + intros x. simpl. tauto.
          + intros e. simpl. tauto.
        - eexists. split; [done|].
          eapply draws_iff; [..|apply draws_refl; by eapply draws_ok];
            intros ?; simpl; tauto. }
      rewrite bind_Ok. eexists. split; [done|].
      eapply draws_iff; [..|exact (draws_trans _ _ _ _ _ _ _ _ Ha Hb)].
      + intros x. simpl. split.
        * intros [(-> & ? & ?)|(-> & ? & ?)]; auto.
        * intros [[-> | ->] [? ?]]; auto.
      + intros [p ch]. simpl. split.
        * intros [([= -> ->] & ? & ?)|([= -> ->] & ? & ?)]; auto.
        * intros (-> & [-> | ->] & ? & ?); auto. }
  rewrite bind_Ok.
  (* the focal individual and the mates *)
  destruct (draws_create_node relationships c1 F (draws_ok _ _ _ _ _ H1))
    as (c2 & -> & H2).
  rewrite bind_Ok.
  destruct (draws_create_nodes relationships
              (elements (get_mates relationships F)) c2
              (draws_ok _ _ _ _ _ H2)) as (c3 & -> & H3).
  rewrite bind_Ok.
  pose proof (draws_rank_same relationships c3 (draws_ok _ _ _ _ _ H3)) as H4.
  (* the children *)
  destruct (draws_children relationships F (get_mates relationships F)
              (map_to_list relationships) _ (draws_ok _ _ _ _ _ H4))
    as (c5 & -> & H5).
  { intros [k v] Hin. by apply elem_of_map_to_list in Hin. }
  rewrite bind_Ok.
  destruct (draws_trans _ _ _ _ _ _ _ _
              (draws_trans _ _ _ _ _ _ _ _
                 (draws_trans _ _ _ _ _ _ _ _
                    (draws_trans _ _ _ _ _ _ _ _ H1 H2) H3) H4) H5)
    as (Hok & Hd & He).
  exists c5. split; [done|]. split; [done|].
  pose proof (elem_of_dom_2 _ _ _ Hfocal) as HF.
  split.
  - intros x. rewrite Hd, Hd0. unfold in_family, year_ok. split.
    + intros [Hemp|Hcases]; [by apply elem_of_empty in Hemp|].
      destruct Hcases as [[[[H|H]|H]|[]]|H].
      * destruct H as [[-> | ->] ?]; [right; left|right; right; left]; done.
      * destruct H as [-> _]. by left.
      * destruct H as [Hx _]. apply elem_of_elements in Hx.
        do 3 right. by left.
      * destruct H as ([k info] & Hin & -> & Hchild).
        apply elem_of_map_to_list in Hin.
        do 4 right. exists info. split; [done|]. split; [done|by left].
    + intros [->|[[-> ?]|[[-> ?]|[Hx|(info & Hin & Hchild & _)]]]]; right.
      * left. left. left. by right.
      * left. left. left. left. split; [by left|done].
      * left. left. left. left. split; [by right|done].
      * left. left. right. split; [by apply elem_of_elements|].
        by eapply get_mates_dom.
      * right. exists (x, info). split; [by apply elem_of_map_to_list|done].
  - intros e. rewrite He, He0. split.
    + intros [Hemp|Hcases]; [by apply elem_of_nil in Hemp|].
      destruct Hcases as [[[[H|[]]|[]]|[]]|H]; [by left|by right].
    + intros [?|?]; right; [|by right].
      left. left. left. by left.
Qed.

(** Whatever the focus, [build_graph] ends on a canvas that is in order. *)
Lemma build_graph_canvas (relationships : store) FOCUS_ID :
  ∃ c, build_graph relationships FOCUS_ID = Ok (dot c)
       ∧ canvas_ok relationships c
       ∧ ∀ e, e ∈ edge_pairs (body (dot c)) →
              e.1 ∈ drawn c ∧ e.2 ∈ drawn c
              ∧ ∃ info, relationships !! e.2 = Some info
                        ∧ (e.1 = father_id info ∨ e.1 = mother_id info).
Proof.
  destruct (focused relationships FOCUS_ID) as [F|] eqn:Hfocus.
  - pose proof (focused_Some _ _ _ Hfocus) as [focal Hfocal]%elem_of_dom.
    destruct (build_graph_focused _ _ _ _ Hfocus Hfocal)
      as (c & Hrun & Hok & Hd & He).
    exists c. split; [done|]. split; [done|].
    intros [p ch] Hin. apply He in Hin. rewrite !Hd. simpl in *.
    unfold in_family, year_ok.
    destruct Hin as [(-> & Hp & Hvalid)|([k info] & Hin & Hedge)].
    + split; [destruct Hp as [-> | ->]; auto|]. split; [by left|].
      by exists focal.
    + apply elem_of_map_to_list in Hin.
      destruct Hedge as (Hch & Hp & Hfm). simpl in *. subst ch.
      split; [destruct Hfm; auto|]. split; [|by exists info].
      do 4 right. exists info. split; [done|]. split; [|by left].
      unfold is_child. destruct Hp as [-> | ->], Hfm; auto.
  - destruct (build_graph_unfocused _ _ Hfocus) as (c & Hrun & Hok & Hd & He).
    exists c. split; [done|]. split; [done|].
    intros [p ch] Hin. apply He in Hin as ([k info] & Hin & Hedge).
    apply elem_of_map_to_list in Hin. rewrite !Hd.
    destruct Hedge as (Hch & Hp & Hkey & _). simpl in *. subst ch.
    split; [done|]. split; [by apply elem_of_dom_2 in Hin|]. by exists info.
Qed.

(** X13.  In the graph [build_graph] makes, whatever the focus, no node
    is drawn twice and every node is a key of the store. *)
Theorem graph_nodes_unique (relationships : store) FOCUS_ID :
  ∃ d, build_graph relationships FOCUS_ID = Ok d
       ∧ NoDup (node_names (body d))
       ∧ ∀ x, x ∈ node_names (body d) → x ∈ dom relationships.
Proof.
  destruct (build_graph_canvas relationships FOCUS_ID)
    as (c & Hrun & (Hnodup & _ & Hall) & _).
  exists (dot c). split; [done|]. split; [done|].
  intros x. by apply node_names_ok.
Qed.

(** X14.  Every edge of the graph joins two nodes that are drawn, and goes
    to an individual from the father or the mother its record names. *)
Theorem graph_edges_joined (relationships : store) FOCUS_ID :
  ∃ d, build_graph relationships FOCUS_ID = Ok d
       ∧ ∀ p ch, (p, ch) ∈ edge_pairs (body d) →
                 p ∈ node_names (body d) ∧ ch ∈ node_names (body d)
                 ∧ ∃ info, relationships !! ch = Some info
                           ∧ (p = father_id info ∨ p = mother_id info).
Proof.
  destruct (build_graph_canvas relationships FOCUS_ID)
    as (c & Hrun & (_ & Hdrawn & _) & Hedges).
  exists (dot c). split; [done|]. intros p ch Hin.
  rewrite !Hdrawn. by apply (Hedges (p, ch)).
Qed.

(** X15.  Every statement of the graph is styled by the store: a node is a
    box filled light blue for sex ["1"], an ellipse filled light pink for
    sex ["2"], an egg filled gray otherwise; an edge is blue, red or gray
    by the sex of its tail, gray when the tail is no key; and a subgraph
    holds nothing but its rank attribute. *)
Theorem graph_styles (relationships : store) FOCUS_ID :
  ∃ d, build_graph relationships FOCUS_ID = Ok d
       ∧ Forall (stmt_ok relationships) (body d).
Proof.
  destruct (build_graph_canvas relationships FOCUS_ID)
    as (c & Hrun & (_ & _ & Hall) & _).
  by exists (dot c).
Qed.

(** X16.  With no focus (none given, an empty one, or one that is no key)
    the graph has a node for every key of the store and for nothing else,
    and an edge from [p] to [ch] exactly when the record of [ch] names [p]
    as father or mother and [p] is a key other than ["0"]. *)
Theorem unfocused_graph (relationships : store) FOCUS_ID :
  focused relationships FOCUS_ID = None →
  ∃ d, build_graph relationships FOCUS_ID = Ok d
       ∧ (∀ x, x ∈ node_names (body d) ↔ x ∈ dom relationships)
       ∧ (∀ p ch, (p, ch) ∈ edge_pairs (body d)
                  ↔ ∃ info, relationships !! ch = Some info
                            ∧ (p = father_id info ∨ p = mother_id info)
                            ∧ p ∈ dom relationships ∧ p ≠ "0").
Proof.
  intros Hfocus.
  destruct (build_graph_unfocused _ _ Hfocus)
    as (c & Hrun & (_ & Hdrawn & _) & Hd & He).
  exists (dot c). split; [done|]. split.
  - intros x. by rewrite Hdrawn.
  - intros p ch. rewrite He. unfold parent_edge. split.
    + intros ([k info] & Hin%elem_of_map_to_list & Hch & ?). simpl in *.
      subst k. by exists info.
    + intros (info & Hin & ?). exists (ch, info).
      split; [by apply elem_of_map_to_list|done].
Qed.

Lemma unfocused_graph_witness :
  ∃ d, build_graph tiny_store (Some "nobody") = Ok d
       ∧ (∀ x, x ∈ node_names (body d) ↔ x ∈ dom tiny_store)
       ∧ (∀ p ch, (p, ch) ∈ edge_pairs (body d)
                  ↔ ∃ info, tiny_store !! ch = Some info
                            ∧ (p = father_id info ∨ p = mother_id info)
                            ∧ p ∈ dom tiny_store ∧ p ≠ "0").
Proof.
  apply (unfocused_graph tiny_store (Some "nobody")).
  vm_compute. reflexivity.
Defined.

(** X17.  With a focus [F] (a key, not empty) the graph has a node for
    exactly the individuals [filter_family] keeps with no year filter; its
    edges come to [F] from each parent its record names that is a key
    other than ["0"], and to every child from [F] and from the mates of
    [F], when the child's record names them. *)
Theorem focused_graph (relationships : store) FOCUS_ID F focal :
  focused relationships FOCUS_ID = Some F →
  relationships !! F = Some focal →
  ∃ d (family : store),
    build_graph relationships FOCUS_ID = Ok d
    ∧ filter_family relationships F None = Ok family
    ∧ (∀ x, x ∈ node_names (body d) ↔ x ∈ dom family)
    ∧ (∀ p ch, (p, ch) ∈ edge_pairs (body d)
               ↔ (ch = F ∧ (p = father_id focal ∨ p = mother_id focal)
                  ∧ p ∈ dom relationships ∧ p ≠ "0")
                 ∨ ∃ info, relationships !! ch = Some info
                           ∧ (p = father_id info ∨ p = mother_id info)
                           ∧ (p = F ∨ p ∈ get_mates relationships F)).
Proof.
  intros Hfocus Hfocal.
  destruct (build_graph_focused _ _ _ _ Hfocus Hfocal)
    as (c & Hrun & (_ & Hdrawn & _) & Hd & He).
  assert (F ≠ "") as Hne.
  { unfold focused in Hfocus. destruct FOCUS_ID as [f|]; [|done].
    case_decide as Hf; [|done]. injection Hfocus as <-. by destruct Hf. }
  destruct (filter_family_spec relationships F None focal Hne Hfocal)
    as (family & Hfam & _ & Hdom).
  exists (dot c), family. split; [done|]. split; [done|]. split.
  - intros x. by rewrite Hdrawn, Hd, Hdom.
  - intros p ch. rewrite He. unfold child_edge, valid_parent. simpl. split.
    + intros [?|([k info] & Hin%elem_of_map_to_list & Hch & ?)]; [by left|].
      simpl in *. subst k. right. by exists info.
    + intros [?|(info & Hin & ?)]; [by left|]. right. exists (ch, info).
      split; [by apply elem_of_map_to_list|done].
Qed.

Lemma focused_graph_witness :
  ∃ d (family : store),
    build_graph tiny_store (Some "P") = Ok d
    ∧ filter_family tiny_store "P" None = Ok family
    ∧ (∀ x, x ∈ node_names (body d) ↔ x ∈ dom family)
    ∧ (∀ p ch, (p, ch) ∈ edge_pairs (body d)
               ↔ (ch = "P" ∧ (p = "0" ∨ p = "0")
                  ∧ p ∈ dom tiny_store ∧ p ≠ "0")
                 ∨ ∃ info, tiny_store !! ch = Some info
                           ∧ (p = father_id info ∨ p = mother_id info)
                           ∧ (p = "P" ∨ p ∈ get_mates tiny_store "P")).
Proof.
  apply (focused_graph tiny_store (Some "P") "P"
           (mk_record "0" "0" "1" "B1" "N/A" "N/A")).
  - vm_compute. reflexivity.
  - vm_compute. reflexivity.
Defined.

(** X18.  The picture of a family shows the whole family: when the filter,
    with no year filter, returned [family] for the focal id [F], the graph
    of [family] focused on [F] has a node for every key of [family]. *)
Theorem family_graph_complete (relationships family : store) F focal :
  F ≠ "" →
  relationships !! F = Some focal →
  filter_family relationships F None = Ok family →
  ∃ d, build_graph family (Some F) = Ok d
       ∧ ∀ x, x ∈ node_names (body d) ↔ x ∈ dom family.
Proof.
  intros Hne Hfocal Hrun.
  pose proof (family_mates _ _ _ _ Hne Hfocal Hrun) as Hmates.
  destruct (filter_family_spec relationships F None focal Hne Hfocal)
    as (family' & Hrun' & Hsub & Hdom).
  rewrite Hrun in Hrun'. injection Hrun' as <-.
  assert (family !! F = Some focal) as Hfocal'.
  { assert (F ∈ dom family) as [v Hv]%elem_of_dom by (apply Hdom; by left).
    pose proof (lookup_weaken _ _ _ _ Hv Hsub). congruence. }
  assert (focused family (Some F) = Some F) as Hfocus.
  { unfold focused. rewrite decide_True; [done|].
    split; [done|]. by apply elem_of_dom_2 in Hfocal'. }
  destruct (build_graph_focused _ _ _ _ Hfocus Hfocal')
    as (c & Hbuild & (_ & Hdrawn & _) & Hd & _).
  exists (dot c). split; [done|]. intros x. rewrite Hdrawn, Hd. split.
  - unfold in_family, valid_parent.
    intros [->|[[_ [? _]]|[[_ [? _]]|[?|(info & ?%elem_of_dom_2 & _)]]]];
      try done.
    + by apply elem_of_dom_2 in Hfocal'.
    + by eapply get_mates_dom.
  - intros Hx. pose proof Hx as Hin. apply Hdom in Hin.
    unfold in_family, valid_parent in *. rewrite Hmates.
    destruct Hin as [?|[[? [_ ?]]|[[? [_ ?]]|[?|(info & Hinfo & ? & ?)]]]];
      auto 7.
    do 4 right. exists info. split; [|done].
    apply elem_of_dom in Hx as [v Hv].
    pose proof (lookup_weaken _ _ _ _ Hv Hsub). congruence.
Qed.

Lemma family_graph_complete_witness :
  ∃ d, build_graph inbred_store (Some "F") = Ok d
       ∧ ∀ x, x ∈ node_names (body d) ↔ x ∈ dom inbred_store.
Proof.
  apply (family_graph_complete
           (<["Z" := mk_record "0" "0" "1" "N/A" "N/A" "N/A"]> inbred_store)
           inbred_store "F" (mk_record "0" "0" "1" "N/A" "N/A" "N/A"));
    [discriminate|vm_compute; reflexivity..].
Defined.

(** * Properties of the page *)

Section PageOrder.

(** Whatever the order of [relationships.items()], it goes through the
    items of the store, each once. *)
Variable items : store → list (string * record).
Hypothesis items_perm :
  ∀ relationships, items relationships ≡ₚ map_to_list relationships.

(** The ids the page finds for a band: the keys whose record has it. *)
Lemma found_ids_spec (relationships : store) band_id k :
  k ∈ (filter (λ it, usgs_band_id it.2 = band_id) (items relationships)).*1
  ↔ ∃ info, relationships !! k = Some info ∧ usgs_band_id info = band_id.
Proof using items_perm.
  rewrite list_elem_of_fmap. split.
  - intros ([k' info] & -> & [Hband Hin]%list_elem_of_filter).
    rewrite items_perm in Hin. apply elem_of_map_to_list in Hin.
    by exists info.
  - intros (info & Hk & Hband). exists (k, info). split; [done|].
    apply list_elem_of_filter. split; [done|].
    rewrite items_perm. by apply elem_of_map_to_list.
Qed.

Lemma found_ids_NoDup (relationships : store) band_id :
  NoDup (filter (λ it, usgs_band_id it.2 = band_id) (items relationships)).*1.
Proof using items_perm.
  eapply sublist_NoDup; [|apply fmap_sublist, sublist_filter].
  rewrite items_perm. apply NoDup_fst_map_to_list.
Qed.

Lemma resolve_focus_key (relationships : store) individual_id band_id f :
  (resolve_focus items relationships individual_id band_id).1 = Some f →
  f ∈ dom relationships.
Proof using items_perm.
  unfold resolve_focus. repeat case_decide; simpl; try done.
  - by intros [= <-].
  - destruct (filter _ _).*1 as [|x [|y l]] eqn:Hfound; simpl; [done|..];
      intros [= <-];
      (assert (x ∈ (filter (λ it, usgs_band_id it.2 = band_id)
                      (items relationships)).*1) as Hx
         by (rewrite Hfound; left));
      apply found_ids_spec in Hx as (info & Hinfo & _);
      by apply elem_of_dom_2 in Hinfo.
Qed.

End PageOrder.

(** X19.  The focus the page picks is a key of the store whenever there is
    one: from the individual id when it is typed and known, and from the
    band id otherwise; an individual id that is typed and unknown gives no
    focus, and the band id is then not looked at. *)
Theorem resolved_focus_is_key
    (items : store → list (string * record))
    (relationships : store) individual_id band_id :
  (∀ m, items m ≡ₚ map_to_list m) →
  (∀ f, (resolve_focus items relationships individual_id band_id).1 = Some f →
        f ∈ dom relationships)
  ∧ (Py.strip individual_id ≠ "" →
     resolve_focus items relationships individual_id band_id
     = if decide (individual_id ∈ dom relationships)
       then (Some individual_id, [])
       else (None, [NoMatchForId individual_id])).
Proof.
  intros Hperm. split.
  - intros f. by apply resolve_focus_key.
  - intros Htyped. unfold resolve_focus. by rewrite decide_True.
Qed.

Lemma resolved_focus_is_key_witness :
  (∀ f, (resolve_focus map_to_list scenario_store "A9" "B123").1 = Some f →
        f ∈ dom scenario_store)
  ∧ (Py.strip "A9" ≠ "" →
     resolve_focus map_to_list scenario_store "A9" "B123"
     = if decide ("A9" ∈ dom scenario_store)
       then (Some "A9", [])
       else (None, [NoMatchForId "A9"])).
Proof.
  apply (resolved_focus_is_key map_to_list scenario_store "A9" "B123").
  reflexivity.
Defined.

(** X20.  With no individual id typed and a band id typed, the page
    focuses on an individual whose record has that band: on none exactly
    when no record has it, and on the only one, with the note that it was
    found, when exactly one record has it. *)
Theorem band_focus
    (items : store → list (string * record))
    (relationships : store) individual_id band_id :
  (∀ m, items m ≡ₚ map_to_list m) →
  Py.strip individual_id = "" →
  Py.strip band_id ≠ "" →
  let focus := (resolve_focus items relationships individual_id band_id).1 in
  (∀ f, focus = Some f →
        ∃ info, relationships !! f = Some info ∧ usgs_band_id info = band_id)
  ∧ (focus = None
     ↔ ∀ k info, relationships !! k = Some info → usgs_band_id info ≠ band_id)
  ∧ (∀ k info,
       relationships !! k = Some info → usgs_band_id info = band_id →
       (∀ k' info', relationships !! k' = Some info' →
                    usgs_band_id info' = band_id → k' = k) →
       resolve_focus items relationships individual_id band_id
       = (Some k, [FoundForBand k band_id])).
Proof.
  intros Hperm Hblank Hband. unfold resolve_focus.
  rewrite decide_False by (by intros ?). rewrite decide_True by done.
  pose proof (found_ids_spec items Hperm relationships band_id) as Hspec.
  pose proof (found_ids_NoDup items Hperm relationships band_id) as Hnodup.
  destruct (filter _ _).*1 as [|x [|y l]] eqn:Hfound; simpl.
  - split; [done|]. split.
    + split; [|done]. intros _ k info Hk Hb.
      assert (k ∈ ([] : list string)) as ?%elem_of_nil; [|done].
      apply Hspec. by exists info.
    + intros k info Hk Hb _.
      assert (k ∈ ([] : list string)) as ?%elem_of_nil; [|done].
      apply Hspec. by exists info.
  - split; [|split].
    + intros f [= <-]. apply Hspec. left.
    + split; [done|]. intros Hnone.
      assert (x ∈ [x]) as (info & Hk & Hb)%Hspec by left.
      by destruct (Hnone x info).
    + intros k info Hk Hb _.
      assert (k ∈ [x]) as ->%list_elem_of_singleton; [|done].
      apply Hspec. by exists info.
  - split; [|split].
    + intros f [= <-]. apply Hspec. left.
    + split; [done|]. intros Hnone.
      assert (x ∈ x :: y :: l) as (info & Hk & Hb)%Hspec by left.
      by destruct (Hnone x info).
    + intros k info Hk Hb Honly. exfalso.
      assert (x ∈ x :: y :: l) as (ix & Hx & Hbx)%Hspec by left.
      assert (y ∈ x :: y :: l) as (iy & Hy & Hby)%Hspec by (right; left).
      rewrite (Honly x ix Hx Hbx), (Honly y iy Hy Hby) in Hnodup.
      apply NoDup_cons in Hnodup as [Hnot _]. apply Hnot. left.
Qed.

Lemma band_focus_witness :
  let focus := (resolve_focus map_to_list scenario_store "" "B123").1 in
  (∀ f, focus = Some f →
        ∃ info, scenario_store !! f = Some info ∧ usgs_band_id info = "B123")
  ∧ (focus = None
     ↔ ∀ k info, scenario_store !! k = Some info → usgs_band_id info ≠ "B123")
  ∧ (∀ k info,
       scenario_store !! k = Some info → usgs_band_id info = "B123" →
       (∀ k' info', scenario_store !! k' = Some info' →
                    usgs_band_id info' = "B123" → k' = k) →
       resolve_focus map_to_list scenario_store "" "B123"
       = (Some k, [FoundForBand k "B123"])).
Proof.
  apply (band_focus map_to_list scenario_store "" "B123");
    [reflexivity|reflexivity|discriminate].
Defined.


(** X22.  [get_mates] only reads: run on a heap that has the store at
    [l], it returns the mate set of the store and leaves the heap as it
    was. *)
Theorem get_mates_reads_only (h : Obj.heap) (l : Obj.loc)
    (relationships : store) individual_id :
  h !! l = Some relationships →
  Obj.get_mates l individual_id h
  = (Ok (get_mates relationships individual_id), h).
Proof. intros Hl. by apply get_mates_run. Qed.

Lemma get_mates_reads_only_witness :
  Obj.get_mates 1%positive "F" {[1%positive := inbred_store]}
  = (Ok (get_mates inbred_store "F"), {[1%positive := inbred_store]}).
Proof.
  apply (get_mates_reads_only {[1%positive := inbred_store]} 1%positive
           inbred_store "F").
  vm_compute. reflexivity.
Defined.
